(** * sensor_data_import: the CSV ingestion pipeline of [scanner/csv_scanner.go]

    A shallow embedding of the scanner package: header detection, row
    parsing with the timestamp fallback chain, chunked persistence with the
    per-record fallback, the directory scanner and the summary reporter.

    Go strings are byte sequences, so they are modelled by [string] (a list
    of [ascii] bytes).  Go's [int] and [time.Duration] are 64-bit signed
    integers, modelled by [Z]; the sums of the summary reporter wrap around
    explicitly.  The standard-library functions the scanner calls
    ([strings.TrimSpace], [time.Parse], [strconv.ParseFloat], ...) are
    modelled in the modules [strings], [time], [strconv] and [filepath]. *)

From Stdlib Require Import String Ascii List ZArith NArith QArith Bool Lia Permutation Sorted.
Import ListNotations.
Open Scope string_scope.
Open Scope Z_scope.

(** ** Option as the error monad of the library models *)

Notation "x <- e ;; k" := (match e with Some x => k | None => None end)
  (at level 61, e at next level, right associativity, only parsing).

Notation "' p <- e ;; k" := (match e with Some p => k | None => None end)
  (at level 61, p pattern, e at next level, right associativity, only parsing).

Notation "'guard' b ;; k" := (if b then k else None)
  (at level 61, b at next level, right associativity, only parsing).

(** ** Bytes *)

Definition byte_of (c : ascii) : Z := Z.of_N (N_of_ascii c).

Definition in_range (lo hi : ascii) (c : ascii) : bool :=
  (byte_of lo <=? byte_of c) && (byte_of c <=? byte_of hi).

Definition isDigitByte (c : ascii) : bool := in_range "0" "9" c.

Definition digit_val (c : ascii) : Z := byte_of c - byte_of "0".

(** [lower(c)] of strconv: [c | ('x' - 'X')]. *)
Definition lower (c : ascii) : ascii :=
  ascii_of_N (N.lor (N_of_ascii c) 32).

Fixpoint string_of_bytes (l : list ascii) : string :=
  match l with
  | [] => EmptyString
  | c :: l' => String c (string_of_bytes l')
  end.

Fixpoint rev_string (acc s : string) : string :=
  match s with
  | EmptyString => acc
  | String c s' => rev_string (String c acc) s'
  end.

(** [len(l)] as a Go [int]. *)
Definition len {A} (l : list A) : Z := Z.of_nat (List.length l).

(** ** Package [strings] *)

Module strings.

(** The ASCII white space of [asciiSpace]: tab, line feed, vertical tab,
    form feed, carriage return and space. *)
Definition asciiSpace (c : ascii) : bool :=
  let b := byte_of c in
  (b =? 9) || (b =? 10) || (b =? 11) || (b =? 12) || (b =? 13) || (b =? 32).

Definition bytes (l : list Z) : string :=
  string_of_bytes (map (fun z => ascii_of_N (Z.to_N z)) l).

(** The UTF-8 encodings of the non-ASCII runes for which [unicode.IsSpace]
    holds: U+0085, U+00A0, U+1680, U+2000..U+200A, U+2028, U+2029,
    U+202F, U+205F and U+3000. *)
Definition unicodeSpaces : list string :=
  [ bytes [194; 133]; bytes [194; 160]; bytes [225; 154; 128] ]
  ++ map (fun k => bytes [226; 128; 128 + k]) [0;1;2;3;4;5;6;7;8;9;10]
  ++ [ bytes [226; 128; 168]; bytes [226; 128; 169]; bytes [226; 128; 175];
       bytes [226; 129; 159]; bytes [227; 128; 128] ].

Fixpoint strip_prefix (p s : string) : option string :=
  match p, s with
  | EmptyString, _ => Some s
  | String a p', String b s' => if Ascii.eqb a b then strip_prefix p' s' else None
  | String _ _, EmptyString => None
  end.

Fixpoint strip_any (ps : list string) (s : string) : option string :=
  match ps with
  | [] => None
  | p :: ps' =>
      match strip_prefix p s with
      | Some r => Some r
      | None => strip_any ps' s
      end
  end.

(** One white-space rune off the front, if there is one. *)
Definition strip_space (s : string) : option string :=
  match s with
  | EmptyString => None
  | String c s' => if asciiSpace c then Some s' else strip_any unicodeSpaces s
  end.

(** Each removed rune shortens the string, so [length s] rounds suffice. *)
Fixpoint trim_left_fuel (n : nat) (s : string) : string :=
  match n with
  | O => s
  | S n' =>
      match strip_space s with
      | Some r => trim_left_fuel n' r
      | None => s
      end
  end.

Definition TrimLeftSpace (s : string) : string :=
  trim_left_fuel (String.length s) s.

(** Trimming the end is trimming the front of the reversed bytes, against
    the reversed encodings. *)
Definition strip_space_rev (s : string) : option string :=
  match s with
  | EmptyString => None
  | String c s' =>
      if asciiSpace c then Some s'
      else strip_any (map (rev_string EmptyString) unicodeSpaces) s
  end.

Fixpoint trim_right_fuel (n : nat) (s : string) : string :=
  match n with
  | O => s
  | S n' =>
      match strip_space_rev s with
      | Some r => trim_right_fuel n' r
      | None => s
      end
  end.

Definition TrimRightSpace (s : string) : string :=
  rev_string EmptyString
    (trim_right_fuel (String.length s) (rev_string EmptyString s)).

(** [strings.TrimSpace]: all leading and trailing white space removed, as
    defined by Unicode. *)
Definition TrimSpace (s : string) : string :=
  TrimRightSpace (TrimLeftSpace s).

Definition lower_byte (c : ascii) : ascii :=
  if in_range "A" "Z" c then ascii_of_N (N_of_ascii c + 32) else c.

(** [strings.ToLower] on its byte-wise path.  Bytes from 0x80 on are left
    as they are: the Unicode case mapping of non-ASCII runes is outside
    this model. *)
Fixpoint ToLower (s : string) : string :=
  match s with
  | EmptyString => EmptyString
  | String c s' => String (lower_byte c) (ToLower s')
  end.

(** [strings.Contains(s, substr)]. *)
Fixpoint Contains (s substr : string) : bool :=
  if String.prefix substr s then true
  else match s with
       | EmptyString => false
       | String _ s' => Contains s' substr
       end.

End strings.

(** ** Package [path/filepath] *)

Module filepath.

(** The path separator of the Unix build. *)
Definition IsPathSeparator (c : ascii) : bool := Ascii.eqb c "/".

(** The scan of [Ext] from the end of the path, over the reversed bytes;
    [acc] is the suffix after the current byte. *)
Fixpoint ext_rev (r : string) (acc : string) : string :=
  match r with
  | EmptyString => EmptyString
  | String c r' =>
      if IsPathSeparator c then EmptyString
      else if Ascii.eqb c "." then String c acc
      else ext_rev r' (String c acc)
  end.

(** [filepath.Ext]: the suffix beginning at the final dot in the final
    element of the path, empty if there is none. *)
Definition Ext (path : string) : string :=
  ext_rev (rev_string EmptyString path) EmptyString.

(** The elements of a path between separators, in order; [cur] collects
    the bytes of the current element, reversed. *)
Fixpoint split_from (cur : string) (s : string) : list string :=
  match s with
  | EmptyString => [rev_string EmptyString cur]
  | String c s' =>
      if IsPathSeparator c then rev_string EmptyString cur :: split_from EmptyString s'
      else split_from (String c cur) s'
  end.

Definition elements (path : string) : list string :=
  filter (fun e => negb (String.eqb e "")) (split_from EmptyString path).

Definition rooted (path : string) : bool :=
  match path with
  | String c _ => IsPathSeparator c
  | EmptyString => false
  end.

(** The elements kept by [Clean], last one first: "." is dropped, ".."
    removes the element before it, or is dropped at the root, or is kept. *)
Fixpoint clean_elements (isRooted : bool) (kept : list string) (es : list string) : list string :=
  match es with
  | [] => kept
  | e :: es' =>
      if String.eqb e "." then clean_elements isRooted kept es'
      else if String.eqb e ".." then
        match kept with
        | top :: kept' =>
            if String.eqb top ".." then clean_elements isRooted (e :: kept) es'
            else clean_elements isRooted kept' es'
        | [] =>
            if isRooted then clean_elements isRooted kept es'
            else clean_elements isRooted [e] es'
        end
      else clean_elements isRooted (e :: kept) es'
  end.

(** [filepath.Clean]: the shortest path equivalent to [path] by purely
    lexical processing. *)
Definition Clean (path : string) : string :=
  let kept := rev (clean_elements (rooted path) [] (elements path)) in
  let body := String.concat "/" kept in
  let out := if rooted path then "/" ++ body else body in
  if String.eqb out "" then "." else out.

(** [filepath.Join(dir, name)]: empty elements are ignored, the rest is
    joined by the separator and cleaned. *)
Definition Join (dir name : string) : string :=
  match String.eqb dir "", String.eqb name "" with
  | true, true => ""
  | true, false => Clean name
  | false, true => Clean dir
  | false, false => Clean (dir ++ "/" ++ name)
  end.

(** [filepath.Base]: the last element of the path. *)
Definition Base (path : string) : string :=
  if String.eqb path "" then "."
  else last (elements path) "/".

End filepath.

(** ** Package [time]: [time.Parse] for the three layouts of the scanner *)

Module time.

Inductive Location :=
| UTC
| FixedZone (offset : Z).

(** A [time.Time]: the instant as seconds since the Unix epoch plus
    nanoseconds, and the location it is presented in. *)
Record Time := mkTime { unixSec : Z; nanos : Z; loc : Location }.

(** [t.UTC()]: the same instant with the location set to UTC. *)
Definition toUTC (t : Time) : Time := mkTime (unixSec t) (nanos t) UTC.

(** [time.Duration]: nanoseconds in an [int64]. *)
Definition Duration := Z.

(** The chunks [nextStdChunk] cuts a layout into: literal text to skip,
    and the standard fields that occur in the scanner's layouts. *)
Inductive chunk :=
| lit (prefix : string)
| stdLongYear          (* 2006 *)
| stdZeroMonth         (* 01 *)
| stdZeroDay           (* 02 *)
| stdHour              (* 15 *)
| stdZeroMinute        (* 04 *)
| stdZeroSecond        (* 05 *)
| stdISO8601ColonTZ.   (* Z07:00 *)

Definition Layout := list chunk.

(** [time.RFC3339], "2006-01-02T15:04:05Z07:00". *)
Definition RFC3339 : Layout :=
  [stdLongYear; lit "-"; stdZeroMonth; lit "-"; stdZeroDay; lit "T";
   stdHour; lit ":"; stdZeroMinute; lit ":"; stdZeroSecond; stdISO8601ColonTZ].

(** "2006-01-02T15:04:05" *)
Definition layoutISONoZone : Layout :=
  [stdLongYear; lit "-"; stdZeroMonth; lit "-"; stdZeroDay; lit "T";
   stdHour; lit ":"; stdZeroMinute; lit ":"; stdZeroSecond].

(** "2006-01-02 15:04:05" *)
Definition layoutSpace : Layout :=
  [stdLongYear; lit "-"; stdZeroMonth; lit "-"; stdZeroDay; lit " ";
   stdHour; lit ":"; stdZeroMinute; lit ":"; stdZeroSecond].

Definition isDigit (s : string) (i : nat) : bool :=
  match String.get i s with
  | Some c => isDigitByte c
  | None => false
  end.

Definition drop (n : nat) (s : string) : string :=
  String.substring n (String.length s - n) s.

Fixpoint cutspace (s : string) : string :=
  match s with
  | String c s' => if Ascii.eqb c " " then cutspace s' else s
  | EmptyString => s
  end.

(** [skip(value, prefix)]: the literal text of the layout taken off the
    value.  A run of spaces in the layout matches zero or more spaces in
    the value; [in_spaces] says that the run has already been matched. *)
Fixpoint skip_from (in_spaces : bool) (prefix value : string) : option string :=
  match prefix with
  | EmptyString => Some value
  | String p prefix' =>
      if Ascii.eqb p " " then
        if in_spaces then skip_from true prefix' value
        else match value with
             | String v _ =>
                 if Ascii.eqb v " " then skip_from true prefix' (cutspace value)
                 else None
             | EmptyString => skip_from true prefix' value
             end
      else match value with
           | String v value' =>
               if Ascii.eqb v p then skip_from false prefix' value' else None
           | EmptyString => None
           end
  end.

Definition skip (value prefix : string) : option string :=
  skip_from false prefix value.

(** [getnum(s, fixed)]: a one- or two-digit number; two digits are
    required when [fixed]. *)
Definition getnum (s : string) (fixed : bool) : option (Z * string) :=
  match s with
  | String a s1 =>
      guard isDigitByte a ;;
      match s1 with
      | String b s2 =>
          if isDigitByte b then Some (digit_val a * 10 + digit_val b, s2)
          else guard negb fixed ;; Some (digit_val a, s1)
      | EmptyString => guard negb fixed ;; Some (digit_val a, s1)
      end
  | EmptyString => None
  end.

(** The decimal value of a string of digits; [None] on any other byte. *)
Fixpoint digits_from (acc : Z) (s : string) : option Z :=
  match s with
  | EmptyString => Some acc
  | String c s' => guard isDigitByte c ;; digits_from (acc * 10 + digit_val c) s'
  end.

Definition isLeap (year : Z) : bool :=
  (year mod 4 =? 0) && (negb (year mod 100 =? 0) || (year mod 400 =? 0)).

Definition daysIn (m year : Z) : Z :=
  if (m =? 2) && isLeap year then 29
  else nth (Z.to_nat (m - 1)) [31; 28; 31; 30; 31; 30; 31; 31; 30; 31; 30; 31] 0.

(** Days from 1970-01-01 to the given date of the proleptic Gregorian
    calendar. *)
Definition daysSinceEpoch (year m d : Z) : Z :=
  let p := year - 1 in
  let before_year := 365 * p + p / 4 - p / 100 + p / 400 - 719162 in
  let before_month :=
    fold_right Z.add 0 (map (fun k => daysIn k year) (firstn (Z.to_nat (m - 1)) [1;2;3;4;5;6;7;8;9;10;11;12])) in
  before_year + before_month + (d - 1).

(** The fields [parse] collects while it walks the layout. *)
Record fields := mkFields {
  year : Z; month : Z; day : Z; hour : Z; min : Z; sec : Z; nsec : Z;
  z : option Location;   (* set by a literal Z *)
  zoneOffset : Z         (* seconds east of UTC; -1 when none was read *)
}.

Definition fields0 : fields := mkFields 0 (-1) (-1) 0 0 0 0 None (-1).

Definition commaOrPeriod (c : ascii) : bool := Ascii.eqb c "." || Ascii.eqb c ",".

Fixpoint digit_run (s : string) : nat :=
  match s with
  | String c s' => if isDigitByte c then S (digit_run s') else O
  | EmptyString => O
  end.

(** [parseNanoseconds(value, nbytes)]: [value] starts with the separator;
    at most nine digits count, scaled to nanoseconds. *)
Definition parseNanoseconds (value : string) (nbytes : nat) : option Z :=
  let nbytes := Nat.min nbytes 10 in
  ns <- digits_from 0 (String.substring 1 (nbytes - 1) value) ;;
  Some (ns * 10 ^ (Z.of_nat (10 - nbytes))).

Definition parse_chunk (c : chunk) (f : fields) (value : string)
  : option (fields * string) :=
  match c with
  | lit prefix =>
      v <- skip value prefix ;; Some (f, v)
  | stdLongYear =>
      guard (4 <=? String.length value)%nat && isDigit value 0 ;;
      y <- digits_from 0 (String.substring 0 4 value) ;;
      Some (mkFields y (month f) (day f) (hour f) (min f) (sec f) (nsec f) (z f) (zoneOffset f),
            drop 4 value)
  | stdZeroMonth =>
      '(m, v) <- getnum value true ;;
      guard negb ((m <=? 0) || (12 <? m)) ;;
      Some (mkFields (year f) m (day f) (hour f) (min f) (sec f) (nsec f) (z f) (zoneOffset f), v)
  | stdZeroDay =>
      '(d, v) <- getnum value true ;;
      Some (mkFields (year f) (month f) d (hour f) (min f) (sec f) (nsec f) (z f) (zoneOffset f), v)
  | stdHour =>
      '(h, v) <- getnum value false ;;
      guard negb ((h <? 0) || (24 <=? h)) ;;
      Some (mkFields (year f) (month f) (day f) h (min f) (sec f) (nsec f) (z f) (zoneOffset f), v)
  | stdZeroMinute =>
      '(mi, v) <- getnum value true ;;
      guard negb ((mi <? 0) || (60 <=? mi)) ;;
      Some (mkFields (year f) (month f) (day f) (hour f) mi (sec f) (nsec f) (z f) (zoneOffset f), v)
  | stdZeroSecond =>
      '(s, v) <- getnum value true ;;
      guard negb ((s <? 0) || (60 <=? s)) ;;
      (* a fractional second in the value although the layout has none *)
      match v with
      | String c0 v1 =>
          if commaOrPeriod c0 && isDigit v 1 then
            let n := S (digit_run v1) in
            ns <- parseNanoseconds v n ;;
            Some (mkFields (year f) (month f) (day f) (hour f) (min f) s ns (z f) (zoneOffset f),
                  drop n v)
          else
            Some (mkFields (year f) (month f) (day f) (hour f) (min f) s (nsec f) (z f) (zoneOffset f), v)
      | EmptyString =>
          Some (mkFields (year f) (month f) (day f) (hour f) (min f) s (nsec f) (z f) (zoneOffset f), v)
      end
  | stdISO8601ColonTZ =>
      match value with
      | String "Z" v =>
          Some (mkFields (year f) (month f) (day f) (hour f) (min f) (sec f) (nsec f) (Some UTC) (zoneOffset f), v)
      | _ =>
          guard (6 <=? String.length value)%nat ;;
          guard (match String.get 3 value with Some c => Ascii.eqb c ":" | None => false end) ;;
          '(hr, _) <- getnum (String.substring 1 2 value) true ;;
          '(mm, _) <- getnum (String.substring 4 2 value) true ;;
          guard negb (24 <? hr) ;;
          guard negb (60 <? mm) ;;
          let off := (hr * 60 + mm) * 60 in
          match String.get 0 value with
          | Some "+"%char =>
              Some (mkFields (year f) (month f) (day f) (hour f) (min f) (sec f) (nsec f) (z f) off,
                    drop 6 value)
          | Some "-"%char =>
              Some (mkFields (year f) (month f) (day f) (hour f) (min f) (sec f) (nsec f) (z f) (- off),
                    drop 6 value)
          | _ => None
          end
      end
  end.

(** The loop of [parse] over the chunks of the layout; when the layout is
    used up, text left in the value is an error. *)
Fixpoint parse_chunks (layout : Layout) (f : fields) (value : string) : option fields :=
  match layout with
  | [] => guard (String.length value =? 0)%nat ;; Some f
  | c :: layout' =>
      '(f', v) <- parse_chunk c f value ;;
      parse_chunks layout' f' v
  end.

(** [Date(year, month, day, hour, min, sec, nsec, UTC)] as an instant. *)
Definition Date_unix (f : fields) : Z :=
  daysSinceEpoch (year f) (month f) (day f) * 86400
  + hour f * 3600 + min f * 60 + sec f.

(** [time.Parse(layout, value)]; [None] stands for a non-nil error.  A
    value without zone information is taken as UTC.  A numeric offset yields
    the instant [offset] seconds earlier, presented in a fixed zone (or in
    the local zone when the offset agrees with it, which this model does
    not tell apart; the scanner converts to UTC at once). *)
Definition Parse (layout : Layout) (value : string) : option Time :=
  f <- parse_chunks layout fields0 value ;;
  let month := if month f =? -1 then 1 else month f in
  let day := if day f =? -1 then 1 else day f in
  let f := mkFields (year f) month day (hour f) (min f) (sec f) (nsec f) (z f) (zoneOffset f) in
  guard negb ((day <? 1) || (daysIn month (year f) <? day)) ;;
  match z f with
  | Some l => Some (mkTime (Date_unix f) (nsec f) l)
  | None =>
      if zoneOffset f =? -1 then Some (mkTime (Date_unix f) (nsec f) UTC)
      else Some (mkTime (Date_unix f - zoneOffset f) (nsec f) (FixedZone (zoneOffset f)))
  end.

End time.

(** ** Package [strconv]: [strconv.ParseFloat(s, 64)] *)

Module strconv.

(** A [float64] as far as the scanner can tell values apart: the special
    values, and a finite value kept as the exact rational that was read.
    Rounding to the nearest binary64 is outside this model. *)
Inductive float64 :=
| NaN
| Inf (neg : bool)
| Finite (v : Q).

Definition is_finite (f : float64) : bool :=
  match f with
  | Finite _ => true
  | _ => false
  end.

Fixpoint commonPrefixLenIgnoreCase (s prefix : string) : nat :=
  match s, prefix with
  | String c s', String p prefix' =>
      if Ascii.eqb (strings.lower_byte c) p
      then S (commonPrefixLenIgnoreCase s' prefix')
      else O
  | _, _ => O
  end.

(** [special(s)]: "inf", "infinity" (optionally signed) and "nan", in any
    case; the value and the number of bytes used. *)
Definition special (s : string) : option (float64 * nat) :=
  let infinity (neg : bool) (nsign : nat) (s : string) :=
    let n := commonPrefixLenIgnoreCase s "infinity" in
    let n := if (3 <? n)%nat && (n <? 8)%nat then 3%nat else n in
    if (n =? 3)%nat || (n =? 8)%nat then Some (Inf neg, (nsign + n)%nat) else None in
  match s with
  | EmptyString => None
  | String c s' =>
      if Ascii.eqb c "+" then infinity false 1%nat s'
      else if Ascii.eqb c "-" then infinity true 1%nat s'
      else if Ascii.eqb c "i" || Ascii.eqb c "I" then infinity false 0%nat s
      else if Ascii.eqb c "n" || Ascii.eqb c "N" then
        if (commonPrefixLenIgnoreCase s "nan" =? 3)%nat then Some (NaN, 3%nat) else None
      else None
  end.

Definition isHexLetter (c : ascii) : bool := in_range "a" "f" (lower c).

(** What the mantissa loop of [readFloat] has seen. *)
Record mant_state := mkMant {
  sawdot : bool; sawdigits : bool; underscores : bool;
  mantissa : Z;   (* all digits read, exactly *)
  frac : Z        (* how many of them came after the point *)
}.

Definition push_digit (base d : Z) (st : mant_state) : mant_state :=
  mkMant (sawdot st) true (underscores st) (mantissa st * base + d)
         (if sawdot st then frac st + 1 else frac st).

Fixpoint read_mantissa (base : Z) (st : mant_state) (s : string) : mant_state * string :=
  match s with
  | EmptyString => (st, s)
  | String c s' =>
      if Ascii.eqb c "_" then
        read_mantissa base (mkMant (sawdot st) (sawdigits st) true (mantissa st) (frac st)) s'
      else if Ascii.eqb c "." then
        if sawdot st then (st, s)
        else read_mantissa base (mkMant true (sawdigits st) (underscores st) (mantissa st) (frac st)) s'
      else if isDigitByte c then
        read_mantissa base (push_digit base (digit_val c) st) s'
      else if (base =? 16) && isHexLetter c then
        read_mantissa base (push_digit 16 (byte_of (lower c) - byte_of "a" + 10) st) s'
      else (st, s)
  end.

(** The digits of the exponent; [e] stops growing once it reaches 10000. *)
Fixpoint read_exponent (e : Z) (us : bool) (s : string) : Z * bool * string :=
  match s with
  | EmptyString => (e, us, s)
  | String c s' =>
      if Ascii.eqb c "_" then read_exponent e true s'
      else if isDigitByte c then
        read_exponent (if e <? 10000 then e * 10 + digit_val c else e) us s'
      else (e, us, s)
  end.

Inductive saw := sawStart | sawDigit | sawUnderscore | sawOther.

Fixpoint underscore_scan (hex : bool) (last : saw) (s : string) : bool :=
  match s with
  | EmptyString => match last with sawUnderscore => false | _ => true end
  | String c s' =>
      if isDigitByte c || (hex && isHexLetter c) then underscore_scan hex sawDigit s'
      else if Ascii.eqb c "_" then
        match last with
        | sawDigit => underscore_scan hex sawUnderscore s'
        | _ => false
        end
      else
        match last with
        | sawUnderscore => false
        | _ => underscore_scan hex sawOther s'
        end
  end.

(** [underscoreOK(s)]: underscores only between digits, or between a base
    prefix and a digit. *)
Definition underscoreOK (s : string) : bool :=
  let s := match s with
           | String c s' => if Ascii.eqb c "-" || Ascii.eqb c "+" then s' else s
           | EmptyString => s
           end in
  match s with
  | String "0" (String b s') =>
      let l := lower b in
      if Ascii.eqb l "b" || Ascii.eqb l "o" || Ascii.eqb l "x"
      then underscore_scan (Ascii.eqb l "x") sawDigit s'
      else underscore_scan false sawStart s
  | _ => underscore_scan false sawStart s
  end.

(** What [readFloat] returns: sign, base, mantissa, and the exponent of the
    base (10, or 2 for a hexadecimal mantissa) that scales it; then the
    text that was not used. *)
Record float_lit := mkLit { neg : bool; hex : bool; mant : Z; exp : Z }.

Definition readFloat (s : string) : option (float_lit * string) :=
  match s with
  | EmptyString => None
  | String c0 s0 =>
      let '(neg, s1) :=
        if Ascii.eqb c0 "+" then (false, s0)
        else if Ascii.eqb c0 "-" then (true, s0)
        else (false, s) in
      let '(hex, s2) :=
        match s1 with
        | String "0" (String x (String c r)) =>
            if Ascii.eqb (lower x) "x" then (true, String c r) else (false, s1)
        | _ => (false, s1)
        end in
      let base := if hex then 16 else 10 in
      let '(st, s3) := read_mantissa base (mkMant false false false 0 0) s2 in
      guard sawdigits st ;;
      let dp := if hex then - (4 * frac st) else - frac st in
      '(e, us, s4) <-
        match s3 with
        | String c s3' =>
            if Ascii.eqb (lower c) (if hex then "p" else "e")%char then
              match s3' with
              | EmptyString => None
              | String sg r =>
                  let '(esign, r) :=
                    if Ascii.eqb sg "+" then (1, r)
                    else if Ascii.eqb sg "-" then (-1, r)
                    else (1, s3') in
                  match r with
                  | String d _ =>
                      guard isDigitByte d ;;
                      let '(e, us, r') := read_exponent 0 (underscores st) r in
                      Some (e * esign, us, r')
                  | EmptyString => None
                  end
              end
            else if hex then None
            else Some (0, underscores st, s3)
        | EmptyString => if hex then None else Some (0, underscores st, s3)
        end ;;
      let used := String.substring 0 (String.length s - String.length s4) s in
      guard negb us || underscoreOK used ;;
      Some (mkLit neg hex (mantissa st) (dp + e), s4)
  end.

(** The exact value of a literal. *)
Definition lit_value (l : float_lit) : Q :=
  let b := if hex l then 2 else 10 in
  let m := if neg l then - mant l else mant l in
  if 0 <=? exp l then inject_Z (m * b ^ exp l)
  else Qmake m (Z.to_pos (b ^ (- exp l))).

(** Half an ulp above the largest [float64]: values from here on round to
    infinity, which [ParseFloat] reports as a range error. *)
Definition overflow_threshold : Q := inject_Z (2 ^ 1024 - 2 ^ 970).

Definition Qabs_le_bool (t v : Q) : bool :=
  Qle_bool t v || Qle_bool t (Qopp v).

(** [strconv.ParseFloat(s, 64)]; [None] stands for a non-nil error (a
    syntax error, or a range error for a magnitude too large). *)
Definition ParseFloat (s : string) : option float64 :=
  match special s with
  | Some (f, n) => guard (n =? String.length s)%nat ;; Some f
  | None =>
      '(l, rest) <- readFloat s ;;
      guard (String.length rest =? 0)%nat ;;
      let v := lit_value l in
      guard negb (Qabs_le_bool overflow_threshold v) ;;
      Some (Finite (Qred v))
  end.

End strconv.

(** ** Package [models] *)

Module models.

(** The fields of [SensorData] the scanner fills in; [ID] and [CreatedAt]
    are assigned by the database. *)
Record SensorData := mkSensorData {
  Timestamp : time.Time;
  SensorName : string;
  Value : strconv.float64
}.

End models.

Import models.
Open Scope list_scope.

(** ** Errors, log lines and the operating system as the scanner sees it *)

Inductive OsError :=
| ErrNotExist
| ErrOther (msg : string).

(** [os.IsNotExist(err)] for the error of a call, [None] being [nil]. *)
Definition IsNotExist (err : option OsError) : bool :=
  match err with
  | Some ErrNotExist => true
  | _ => false
  end.

Inductive DbError :=
| DuplicateKey
| DbFailure (msg : string).

(** The errors the scanner builds with [fmt.Errorf], by their format. *)
Inductive Error :=
| ErrOpenFile (cause : OsError)       (* failed to open file: %w *)
| ErrReadCSV (cause : string)         (* failed to read CSV: %w *)
| ErrEmptyCSV                         (* empty CSV file *)
| ErrInsertAny (cause : DbError)      (* failed to insert any records: %w *)
| ErrInsertData (cause : Error)       (* failed to insert data: %w *)
| ErrDirNotExist (path : string)      (* directory does not exist: %s *)
| ErrFindCSV (cause : OsError).       (* failed to find CSV files: %w *)

(** [FileJob] represents a CSV file to be processed. *)
Record FileJob := mkFileJob { FilePath : string; FileName : string }.

(** [ProcessResult] contains the result of processing a CSV file. *)
Record ProcessResult := mkResult {
  ResultPath : string;
  RecordCount : Z;
  ErrorCount : Z;
  Duration : time.Duration;
  ResultError : option Error
}.

(** The totals [displaySummary] prints. *)
Record Summary := mkSummary {
  totalFiles : Z;
  successfulFiles : Z;
  failedFiles : Z;
  totalRecords : Z;
  totalErrors : Z;
  totalDuration : time.Duration
}.

(** The calls to the logger, by their format; the title and the rulers of
    the summary are left out, and its totals are one entry. *)
Inductive LogEntry :=
| LogScanning (directoryPath : string)
| LogNoCSVFiles
| LogFound (n : Z)
| LogWorkers (workerCount : Z)
| LogProcessing (fileName : string)
| LogCompleted (fileName : string) (records errors : Z) (d : time.Duration)
| WarnInsufficientColumns (row : Z) (fileName : string) (got : Z)
| WarnInvalidTimestamp (row : Z) (fileName : string) (timestampStr : string)
| WarnEmptySensorName (row : Z) (fileName : string)
| WarnInvalidValue (row : Z) (fileName : string) (valueStr : string)
| WarnInsertFailed (sensorName : string) (timestamp : time.Time) (err : DbError)
| LogInsertedSome (successCount total : Z)
| LogFileFailed (base : string) (err : Error)
| LogFileOK (base : string) (records errors : Z) (d : time.Duration)
| LogTotals (s : Summary).

(** What opening a file and [reader.ReadAll] give. *)
Inductive FileContent :=
| OpenFailed (err : OsError)
| ReadFailed (err : string)
| Records (records : list (list string)).

(** A directory entry: [entry.Name()] and [entry.IsDir()]. *)
Record DirEntry := mkEntry { Name : string; IsDir : bool }.

(** The answers of the operating system: the error of [os.Stat], the
    result of [os.ReadDir], the content of a file read as CSV, and the time
    [time.Since(startTime)] shows when the result of a file is filled in. *)
Record Env := mkEnv {
  os_Stat : string -> option OsError;
  os_ReadDir : string -> OsError + list DirEntry;
  readCSV : string -> FileContent;
  since : string -> time.Duration
}.

(** Go's [int64] arithmetic wraps around. *)
Definition wrap64 (x : Z) : Z := (x + 2 ^ 63) mod 2 ^ 64 - 2 ^ 63.

(** ** The record parser *)

(** [isHeaderRow] checks if the first row is likely a header. *)
Definition headerWords : list string := ["timestamp"; "time"; "date"; "datetime"].

Definition isHeaderRow (row : list string) : bool :=
  if len row <? 3 then false
  else
    let firstCol := strings.ToLower (strings.TrimSpace (nth 0 row "")) in
    if existsb (fun word => strings.Contains firstCol word) headerWords then true
    else
      match time.Parse time.RFC3339 (strings.TrimSpace (nth 0 row "")) with
      | Some _ => false
      | None => true
      end.

(** The timestamp of a row: RFC 3339 first, then the alternative formats. *)
Definition parseTimestamp (timestampStr : string) : option time.Time :=
  match time.Parse time.RFC3339 timestampStr with
  | Some t => Some t
  | None =>
      match time.Parse time.layoutISONoZone timestampStr with
      | Some t => Some t
      | None => time.Parse time.layoutSpace timestampStr
      end
  end.

(** What one pass of the loop of [parseCSVRecords] does with a row. *)
Inductive RowOutcome :=
| RowSkipped
| RowRejected (warning : LogEntry)
| RowAccepted (reading : SensorData).

(** The body of the loop of [parseCSVRecords] for [records[i]]. *)
Definition parseRow (fileName : string) (i : Z) (record : list string) : RowOutcome :=
  if (len record =? 0)
     || ((len record =? 1) && String.eqb (strings.TrimSpace (nth 0 record "")) "")
  then RowSkipped
  else if len record <? 3 then
    RowRejected (WarnInsufficientColumns (i + 1) fileName (len record))
  else
    let timestampStr := strings.TrimSpace (nth 0 record "") in
    match parseTimestamp timestampStr with
    | None => RowRejected (WarnInvalidTimestamp (i + 1) fileName timestampStr)
    | Some timestamp =>
        let sensorName := strings.TrimSpace (nth 1 record "") in
        if String.eqb sensorName "" then
          RowRejected (WarnEmptySensorName (i + 1) fileName)
        else
          let valueStr := strings.TrimSpace (nth 2 record "") in
          match strconv.ParseFloat valueStr with
          | None => RowRejected (WarnInvalidValue (i + 1) fileName valueStr)
          | Some value =>
              RowAccepted (mkSensorData (time.toUTC timestamp) sensorName value)
          end
    end.

(** The loop of [parseCSVRecords] from row [i] on; [rows] is [records[i:]].
    [errorCount] cannot overflow: it grows by at most one per row. *)
Fixpoint parseRows (fileName : string) (i : Z) (rows : list (list string))
    (sensorData : list SensorData) (errorCount : Z) (warnings : list LogEntry)
  : list SensorData * Z * list LogEntry :=
  match rows with
  | [] => (sensorData, errorCount, warnings)
  | record :: rest =>
      match parseRow fileName i record with
      | RowSkipped => parseRows fileName (i + 1) rest sensorData errorCount warnings
      | RowRejected w =>
          parseRows fileName (i + 1) rest sensorData (errorCount + 1) (warnings ++ [w])
      | RowAccepted d =>
          parseRows fileName (i + 1) rest (sensorData ++ [d]) errorCount warnings
      end
  end.

(** [parseCSVRecords] parses CSV records into [SensorData] structs; the
    result carries the warnings it logs. *)
Definition parseCSVRecords (records : list (list string)) (fileName : string)
  : list SensorData * Z * list LogEntry :=
  let startRow :=
    if (0 <? len records) && isHeaderRow (nth 0 records []) then 1 else 0 in
  parseRows fileName startRow (skipn (Z.to_nat startRow) records) [] 0 [].

(** ** The summary reporter *)

(** One pass of the loop of [displaySummary].  The two file counters stay
    below [len(results)]; the three sums wrap around. *)
Definition summaryStep (acc : Summary * list LogEntry) (result : ProcessResult)
  : Summary * list LogEntry :=
  let '(s, lines) := acc in
  let s' :=
    match ResultError result with
    | Some _ =>
        mkSummary (totalFiles s) (successfulFiles s) (failedFiles s + 1)
                  (totalRecords s) (totalErrors s) (totalDuration s)
    | None =>
        mkSummary (totalFiles s) (successfulFiles s + 1) (failedFiles s)
                  (wrap64 (totalRecords s + RecordCount result))
                  (wrap64 (totalErrors s + ErrorCount result))
                  (totalDuration s)
    end in
  let line :=
    match ResultError result with
    | Some err => LogFileFailed (filepath.Base (ResultPath result)) err
    | None =>
        LogFileOK (filepath.Base (ResultPath result)) (RecordCount result)
                  (ErrorCount result) (Duration result)
    end in
  (mkSummary (totalFiles s') (successfulFiles s') (failedFiles s')
             (totalRecords s') (totalErrors s')
             (wrap64 (totalDuration s' + Duration result)),
   lines ++ [line]).

Definition summaryLoop (results : list ProcessResult) : Summary * list LogEntry :=
  fold_left summaryStep results (mkSummary (len results) 0 0 0 0 0, []).

(** The totals of the report. *)
Definition summaryTotals (results : list ProcessResult) : Summary :=
  fst (summaryLoop results).

(** [displaySummary] displays a summary of the processing results: a line
    per result, then the totals. *)
Definition displaySummary (results : list ProcessResult) : list LogEntry :=
  snd (summaryLoop results) ++ [LogTotals (summaryTotals results)].

(** ** The directory scanner *)

(** The entries [findCSVFiles] keeps: not a directory, and the extension
    is ".csv" whatever its case. *)
Definition isCSVEntry (entry : DirEntry) : bool :=
  negb (IsDir entry)
  && String.eqb (strings.ToLower (filepath.Ext (Name entry))) ".csv".

(** The loop of [findCSVFiles] over the entries. *)
Fixpoint collectCSV (directoryPath : string) (entries : list DirEntry)
    (csvFiles : list FileJob) : list FileJob :=
  match entries with
  | [] => csvFiles
  | entry :: rest =>
      if IsDir entry then collectCSV directoryPath rest csvFiles
      else if String.eqb (strings.ToLower (filepath.Ext (Name entry))) ".csv" then
        collectCSV directoryPath rest
          (csvFiles ++ [mkFileJob (filepath.Join directoryPath (Name entry)) (Name entry)])
      else collectCSV directoryPath rest csvFiles
  end.

(** [findCSVFiles] finds all CSV files in the specified directory
    (non-recursive). *)
Definition findCSVFiles (env : Env) (directoryPath : string) : OsError + list FileJob :=
  match os_ReadDir env directoryPath with
  | inl err => inl err
  | inr entries => inr (collectCSV directoryPath entries [])
  end.

(** ** The persistence layer *)

(** What the scanner asks of [*gorm.DB]: [CreateInBatches] for one batch
    (one statement, all or nothing) and [Create] for one record; each gives
    the next state of the store and the error of the call. *)
Class Persistence (DB : Type) := {
  CreateInBatches : DB -> list SensorData -> DB * option DbError;
  Create : DB -> SensorData -> DB * option DbError
}.

(** The calls that reached the store, with their outcome. *)
Inductive DbCall :=
| BatchCall (batch : list SensorData) (err : option DbError)
| SingleCall (record : SensorData) (err : option DbError).

Section Scanner.

Context {DB : Type} {persistence : Persistence DB}.

(** The state the scanner works on: the store, the calls it has received
    and the log. *)
Record State := mkState {
  db : DB;
  calls : list DbCall;
  logged : list LogEntry
}.

Definition M (A : Type) : Type := State -> A * State.

Definition ret {A} (a : A) : M A := fun st => (a, st).

Definition bind {A B} (m : M A) (k : A -> M B) : M B :=
  fun st => let '(a, st') := m st in k a st'.

Notation "x <-- m ;; k" := (bind m (fun x => k))
  (at level 61, m at next level, right associativity).

Notation "m ;;; k" := (bind m (fun _ => k))
  (at level 61, right associativity).

Definition logf (e : LogEntry) : M unit :=
  fun st => (tt, mkState (db st) (calls st) (logged st ++ [e])).

Definition logAll (es : list LogEntry) : M unit :=
  fun st => (tt, mkState (db st) (calls st) (logged st ++ es)).

Definition dbCreateInBatches (batch : list SensorData) : M (option DbError) :=
  fun st =>
    let '(db', err) := CreateInBatches (db st) batch in
    (err, mkState db' (calls st ++ [BatchCall batch err]) (logged st)).

Definition dbCreate (record : SensorData) : M (option DbError) :=
  fun st =>
    let '(db', err) := Create (db st) record in
    (err, mkState db' (calls st ++ [SingleCall record err]) (logged st)).

(** The loop of [individualInsert]. *)
Fixpoint individualInsertLoop (data : list SensorData)
    (lastError : option DbError) (successCount : Z) : M (option DbError * Z) :=
  match data with
  | [] => ret (lastError, successCount)
  | record :: rest =>
      err <-- dbCreate record ;;
      match err with
      | Some e =>
          logf (WarnInsertFailed (SensorName record) (Timestamp record) e) ;;;
          individualInsertLoop rest (Some e) successCount
      | None => individualInsertLoop rest lastError (successCount + 1)
      end
  end.

(** [individualInsert] attempts to insert records individually when batch
    insert fails. *)
Definition individualInsert (data : list SensorData) : M (option Error) :=
  r <-- individualInsertLoop data None 0 ;;
  let '(lastError, successCount) := r in
  match lastError with
  | Some e =>
      if successCount =? 0 then ret (Some (ErrInsertAny e))
      else logf (LogInsertedSome successCount (len data)) ;;; ret None
  | None => ret None
  end.

Definition batchSize : Z := 1000.

(** [data[i:end]] *)
Definition slice {A} (data : list A) (i end_ : Z) : list A :=
  firstn (Z.to_nat (end_ - i)) (skipn (Z.to_nat i) data).

(** The loop of [batchInsertSensorData] from index [i]; every pass moves
    [i] forward, so [fuel] bounds the passes. *)
Fixpoint batchInsertFrom (fuel : nat) (data : list SensorData) (i : Z) : M (option Error) :=
  match fuel with
  | O => ret None
  | S fuel' =>
      if i <? len data then
        let end_ := if len data <? i + batchSize then len data else i + batchSize in
        let batch := slice data i end_ in
        err <-- dbCreateInBatches batch ;;
        match err with
        | Some _ => individualInsert batch
        | None => batchInsertFrom fuel' data (i + batchSize)
        end
      else ret None
  end.

(** [batchInsertSensorData] inserts sensor data in batches to improve
    performance. *)
Definition batchInsertSensorData (data : list SensorData) : M (option Error) :=
  batchInsertFrom (List.length data) data 0.

(** ** The file processor *)

(** [processCSVFile] processes a single CSV file. *)
Definition processCSVFile (env : Env) (job : FileJob) : M ProcessResult :=
  logf (LogProcessing (FileName job)) ;;;
  match readCSV env (FilePath job) with
  | OpenFailed err =>
      ret (mkResult (FilePath job) 0 0 (since env (FilePath job)) (Some (ErrOpenFile err)))
  | ReadFailed err =>
      ret (mkResult (FilePath job) 0 0 (since env (FilePath job)) (Some (ErrReadCSV err)))
  | Records records =>
      if len records =? 0 then
        ret (mkResult (FilePath job) 0 0 (since env (FilePath job)) (Some ErrEmptyCSV))
      else
        let '(sensorData, errorCount, warnings) := parseCSVRecords records (FileName job) in
        logAll warnings ;;;
        err <-- (if 0 <? len sensorData then batchInsertSensorData sensorData else ret None) ;;
        match err with
        | Some e =>
            ret (mkResult (FilePath job) (len sensorData) errorCount
                          (since env (FilePath job)) (Some (ErrInsertData e)))
        | None =>
            logf (LogCompleted (FileName job) (len sensorData) errorCount
                               (since env (FilePath job))) ;;;
            ret (mkResult (FilePath job) (len sensorData) errorCount
                          (since env (FilePath job)) None)
        end
  end.

(** ** The worker pool *)

(** [processFilesParallel] under the schedule of a single worker: the jobs
    are taken in the order of the queue and the results are collected in
    that order.  With more workers the results arrive in some permutation
    of this order and the store calls of different files interleave. *)
Fixpoint processFilesParallel (env : Env) (files : list FileJob) : M (list ProcessResult) :=
  match files with
  | [] => ret []
  | job :: rest =>
      result <-- processCSVFile env job ;;
      results <-- processFilesParallel env rest ;;
      ret (result :: results)
  end.

(** [ScanDirectory] scans a directory for CSV files and processes them. *)
Definition ScanDirectory (env : Env) (workerCount : Z) (directoryPath : string)
  : M (option Error) :=
  logf (LogScanning directoryPath) ;;;
  if IsNotExist (os_Stat env directoryPath) then
    ret (Some (ErrDirNotExist directoryPath))
  else
    match findCSVFiles env directoryPath with
    | inl err => ret (Some (ErrFindCSV err))
    | inr csvFiles =>
        if len csvFiles =? 0 then
          logf LogNoCSVFiles ;;; ret None
        else
          logf (LogFound (len csvFiles)) ;;;
          logf (LogWorkers workerCount) ;;;
          results <-- processFilesParallel env csvFiles ;;
          logAll (displaySummary results) ;;;
          ret None
    end.

End Scanner.

Arguments State DB : clear implicits.
Arguments M DB A : clear implicits.

(** ** A store with the unique index of the schema *)

Module Store.

(** The rows of [sensor_data] in insertion order.  The unique index
    [idx_timestamp_sensor] of the model and of the migration is on the pair
    (timestamp, sensor_name); timestamps are compared as instants. *)
Definition T := list SensorData.

Definition sameKey (a b : SensorData) : bool :=
  (time.unixSec (Timestamp a) =? time.unixSec (Timestamp b))
  && (time.nanos (Timestamp a) =? time.nanos (Timestamp b))
  && String.eqb (SensorName a) (SensorName b).

Definition conflicts (rows : T) (record : SensorData) : bool :=
  existsb (sameKey record) rows.

(** One record: refused when its key is taken. *)
Definition insert (rows : T) (record : SensorData) : T * option DbError :=
  if conflicts rows record then (rows, Some DuplicateKey)
  else (rows ++ [record], None).

Fixpoint insertAll (rows : T) (batch : list SensorData) : option T :=
  match batch with
  | [] => Some rows
  | record :: rest =>
      if conflicts rows record then None
      else insertAll (rows ++ [record]) rest
  end.

(** One batch: all of its records, or none when one of them conflicts. *)
Definition insertBatch (rows : T) (batch : list SensorData) : T * option DbError :=
  match insertAll rows batch with
  | Some rows' => (rows', None)
  | None => (rows, Some DuplicateKey)
  end.

#[global] Instance persistence : Persistence T := {
  CreateInBatches := insertBatch;
  Create := insert
}.

End Store.

(** ** Definitions that follow the words of the specification *)

(** The header condition on the first column, as the specification words
    it: lowercased and trimmed it contains one of the header words, or it
    fails to parse under the first timestamp format. *)
Definition looksLikeHeader (firstColumn : string) : bool :=
  existsb (fun word => strings.Contains (strings.ToLower (strings.TrimSpace firstColumn)) word)
          headerWords
  || match time.Parse time.RFC3339 (strings.TrimSpace firstColumn) with
     | Some _ => false
     | None => true
     end.

(** The accepted timestamp formats, in the order of the specification. *)
Definition timestampLayouts : list time.Layout :=
  [time.RFC3339; time.layoutISONoZone; time.layoutSpace].

(** The first format of the list that parses wins. *)
Fixpoint firstThatParses (layouts : list time.Layout) (s : string) : option time.Time :=
  match layouts with
  | [] => None
  | layout :: rest =>
      match time.Parse layout s with
      | Some t => Some t
      | None => firstThatParses rest s
      end
  end.

(** A value that parses as a finite floating-point number. *)
Definition parsesAsFiniteFloat (s : string) : bool :=
  match strconv.ParseFloat s with
  | Some v => strconv.is_finite v
  | None => false
  end.

(** A row that passes the column-count, timestamp and sensor-name checks. *)
Definition passesEarlierChecks (record : list string) : Prop :=
  3 <= len record
  /\ parseTimestamp (strings.TrimSpace (nth 0 record "")) <> None
  /\ strings.TrimSpace (nth 1 record "") <> "".

(** The chunk of [data] that starts at index [i]. *)
Definition chunkAt (data : list SensorData) (i : Z) : list SensorData :=
  slice data i (Z.min (len data) (i + batchSize)).

(** One [Create] call per record, in order, whatever the outcome. *)
Definition singleCallsFor (batch : list SensorData) (cs : list DbCall) : Prop :=
  Forall2 (fun record c => exists err, c = SingleCall record err) batch cs.

(** The sum of a field over a list of results, and the results with and
    without a terminal error. *)
Definition sumOf (f : ProcessResult -> Z) (results : list ProcessResult) : Z :=
  fold_right Z.add 0 (map f results).

Definition failed (result : ProcessResult) : bool :=
  match ResultError result with
  | Some _ => true
  | None => false
  end.

Definition succeeded (result : ProcessResult) : bool := negb (failed result).

(** The report as an aggregation over the multiset of results. *)
Definition summaryOf (results : list ProcessResult) : Summary :=
  mkSummary (len results)
            (len (filter succeeded results))
            (len (filter failed results))
            (wrap64 (sumOf RecordCount (filter succeeded results)))
            (wrap64 (sumOf ErrorCount (filter succeeded results)))
            (wrap64 (sumOf Duration results)).

(** ** The scenarios of the specification *)

Definition badRows : list (list string) :=
  [ ["bad_ts"; "temp_01"; "21.8"];
    ["2025-09-05T08:00:00Z"; ""; "21.8"];
    ["2025-09-05T08:00:00Z"; "temp_01"; "notanumber"] ].

Definition nanRow : list string := ["2025-09-05T08:00:00Z"; "temp_01"; "NaN"].

Definition shortHeader : list string := ["timestamp"; "value"].

Definition goodRows : list (list string) :=
  [ ["timestamp"; "sensor_name"; "value"];
    ["2025-09-05T08:00:00Z"; "temp_01"; "21.8"];
    ["2025-09-05T08:05:00Z"; "temp_01"; "22.1"] ].

(** A directory [dir] with one CSV file of the given rows, a
    subdirectory and a text file. *)
Definition oneFileEnv (rows : list (list string)) : Env :=
  mkEnv (fun _ => None)
        (fun p => if String.eqb p "dir"
                  then inr [mkEntry "a.CSV" false; mkEntry "nested.csv" true; mkEntry "readme.txt" false]
                  else inl (ErrOther "not a directory"))
        (fun p => if String.eqb p "dir/a.CSV" then Records rows else OpenFailed ErrNotExist)
        (fun _ => 5).

Definition emptyStore : State Store.T := mkState [] [] [].

(** A reading for second [k] of the epoch. *)
Definition readingAt (k : nat) : SensorData :=
  mkSensorData (time.mkTime (Z.of_nat k) 0 time.UTC) "s" (strconv.Finite 1).

(** A file that repeats one reading [n] times. *)
Definition repeatedReadings (n : nat) : list SensorData := repeat (readingAt 0) n.

(** The error of a store call. *)
Definition callError (c : DbCall) : option DbError :=
  match c with
  | BatchCall _ err => err
  | SingleCall _ err => err
  end.

(** The last error among the calls, after [lastError]. *)
Definition lastErrorOf (cs : list DbCall) (lastError : option DbError) : option DbError :=
  fold_left (fun acc c => match callError c with Some e => Some e | None => acc end)
            cs lastError.

(** The calls that went through. *)
Definition successes (cs : list DbCall) : Z :=
  len (filter (fun c => match callError c with Some _ => false | None => true end) cs).

(** What [individualInsert] returns, from the outcomes of its calls: an
    error when no call went through and one failed. *)
Definition fallbackOutcome (cs : list DbCall) : option Error :=
  match lastErrorOf cs None with
  | Some e => if successes cs =? 0 then Some (ErrInsertAny e) else None
  | None => None
  end.

(** The shape of the store calls of [batchInsertSensorData] from index
    [i], with the error it returns: batches that succeed, one after the
    other, and either the data is used up, or a batch fails and is followed
    by the individual inserts of its own records and nothing else. *)
Inductive BatchTrace (data : list SensorData) : Z -> list DbCall -> option Error -> Prop :=
| trace_done i :
    len data <= i -> BatchTrace data i [] None
| trace_batch_ok i t r :
    i < len data -> BatchTrace data (i + batchSize) t r ->
    BatchTrace data i (BatchCall (chunkAt data i) None :: t) r
| trace_batch_failed i e cs :
    i < len data -> singleCallsFor (chunkAt data i) cs ->
    BatchTrace data i (BatchCall (chunkAt data i) (Some e) :: cs) (fallbackOutcome cs).

(** The store holds every reading that the files parse to. *)
Definition allStored (env : Env) (files : list FileJob) (rows : Store.T) : Prop :=
  forall job records d,
    In job files ->
    readCSV env (FilePath job) = Records records ->
    In d (fst (fst (parseCSVRecords records (FileName job)))) ->
    Store.conflicts rows d = true.

Definition duplicateCall (c : DbCall) : Prop :=
  match c with
  | BatchCall _ err => err = Some DuplicateKey
  | SingleCall _ err => err = Some DuplicateKey
  end.

(** The calls and the warnings of individual inserts that all fail on a
    duplicate key. *)
Definition duplicateSingles (data : list SensorData) : list DbCall :=
  map (fun d => SingleCall d (Some DuplicateKey)) data.

Definition duplicateWarnings (data : list SensorData) : list LogEntry :=
  map (fun d => WarnInsertFailed (SensorName d) (Timestamp d) DuplicateKey) data.


(** The job [findCSVFiles] builds for a directory entry. *)
Definition jobFor (directoryPath : string) (entry : DirEntry) : FileJob :=
  mkFileJob (filepath.Join directoryPath (Name entry)) (Name entry).

(** ** The rest of the scanner package, the logger and the scan command *)

(** The scanner's own field; its [db] is the store of the state. *)
Record CSVScanner := mkScanner { workerCount : Z }.

(** [NewCSVScanner] creates a new CSV scanner; [numCPU] is what
    [runtime.NumCPU()] returns. *)
Definition NewCSVScanner (numCPU : Z) : CSVScanner :=
  mkScanner (if 8 <? numCPU then 8 else numCPU).

(** [SetWorkerCount] sets the number of parallel workers. *)
Definition SetWorkerCount (cs : CSVScanner) (count : Z) : CSVScanner :=
  if 0 <? count then mkScanner count else cs.

Module logger.

Definition DEBUG : string := "debug".
Definition INFO : string := "info".
Definition WARN : string := "warn".
Definition ERROR : string := "error".

(** The map [levels] of [shouldLog]. *)
Definition levels (level : string) : option Z :=
  if String.eqb level DEBUG then Some 0
  else if String.eqb level INFO then Some 1
  else if String.eqb level WARN then Some 2
  else if String.eqb level ERROR then Some 3
  else None.

(** [shouldLog] determines if a message should be logged based on the log
    level; [logLevel] is the package variable set by [Init]. *)
Definition shouldLog (logLevel messageLevel : string) : bool :=
  let currentLevel :=
    match levels logLevel with
    | Some l => l
    | None => 1
    end in
  match levels messageLevel with
  | None => true
  | Some messageLogLevel => currentLevel <=? messageLogLevel
  end.

End logger.

(** The level of the logger function a log line of the scanner goes
    through: [Warnf] for the warnings, [Printf] and [Println] for the rest. *)
Definition entryLevel (e : LogEntry) : string :=
  match e with
  | WarnInsufficientColumns _ _ _ | WarnInvalidTimestamp _ _ _
  | WarnEmptySensorName _ _ | WarnInvalidValue _ _ _
  | WarnInsertFailed _ _ _ => logger.WARN
  | _ => logger.INFO
  end.

(** The lines that are written when the log level is [logLevel]. *)
Definition written (logLevel : string) (entries : list LogEntry) : list LogEntry :=
  filter (fun e => logger.shouldLog logLevel (entryLevel e)) entries.





(** A row the loop of [parseCSVRecords] skips: no cell, or one blank cell. *)
Definition isBlankRow (record : list string) : bool :=
  (len record =? 0)
  || ((len record =? 1) && String.eqb (strings.TrimSpace (nth 0 record "")) "").

(** The row number a warning of the parser carries. *)
Definition warningRow (e : LogEntry) : Z :=
  match e with
  | WarnInsufficientColumns row _ _ => row
  | WarnInvalidTimestamp row _ _ => row
  | WarnEmptySensorName row _ => row
  | WarnInvalidValue row _ _ => row
  | _ => 0
  end.

(** The bytes a string that parses as RFC 3339 is made of. *)
Definition rfc3339Byte (c : ascii) : bool :=
  isDigitByte c
  || Ascii.eqb c "-" || Ascii.eqb c "T" || Ascii.eqb c ":" || Ascii.eqb c "."
  || Ascii.eqb c "," || Ascii.eqb c "Z" || Ascii.eqb c "+".

Fixpoint allBytes (p : ascii -> bool) (s : string) : bool :=
  match s with
  | EmptyString => true
  | String c s' => p c && allBytes p s'
  end.

(** The records a store call carries. *)
Definition callRecords (c : DbCall) : list SensorData :=
  match c with
  | BatchCall batch _ => batch
  | SingleCall record _ => [record]
  end.

(** Whether a byte occurs in a string. *)
Fixpoint hasByte (c : ascii) (s : string) : bool :=
  match s with
  | EmptyString => false
  | String a s' => Ascii.eqb a c || hasByte c s'
  end.

(** * Properties of the record parser *)

Section RecordParser.

Local Opaque time.Parse strconv.ParseFloat strings.TrimSpace strings.ToLower strings.Contains.

Lemma len_nonneg {A} (l : list A) : 0 <= len l.
Proof. unfold len; lia. Qed.

Lemma len_cons {A} (a : A) (l : list A) : len (a :: l) = len l + 1.
Proof. unfold len; simpl List.length; lia. Qed.

Lemma len_app {A} (l1 l2 : list A) : len (l1 ++ l2) = len l1 + len l2.
Proof. unfold len; rewrite length_app; lia. Qed.

(** A row with three columns or more goes through the timestamp, the
    sensor name and the value, in this order. *)
Lemma parseRow_three_columns fileName i record :
  3 <= len record ->
  parseRow fileName i record =
    let timestampStr := strings.TrimSpace (nth 0 record "") in
    match parseTimestamp timestampStr with
    | None => RowRejected (WarnInvalidTimestamp (i + 1) fileName timestampStr)
    | Some timestamp =>
        let sensorName := strings.TrimSpace (nth 1 record "") in
        if String.eqb sensorName "" then RowRejected (WarnEmptySensorName (i + 1) fileName)
        else
          let valueStr := strings.TrimSpace (nth 2 record "") in
          match strconv.ParseFloat valueStr with
          | None => RowRejected (WarnInvalidValue (i + 1) fileName valueStr)
          | Some value => RowAccepted (mkSensorData (time.toUTC timestamp) sensorName value)
          end
    end.
Proof.
  intros Hlen. unfold parseRow.
  replace (len record =? 0) with false by (symmetry; apply Z.eqb_neq; lia).
  replace (len record =? 1) with false by (symmetry; apply Z.eqb_neq; lia).
  replace (len record <? 3) with false by (symmetry; apply Z.ltb_ge; lia).
  reflexivity.
Qed.

Lemma parseTimestamp_firstThatParses s :
  parseTimestamp s = firstThatParses timestampLayouts s.
Proof.
  unfold parseTimestamp, timestampLayouts, firstThatParses.
  destruct (time.Parse time.RFC3339 s); [reflexivity|].
  destruct (time.Parse time.layoutISONoZone s); [reflexivity|].
  destruct (time.Parse time.layoutSpace s); reflexivity.
Qed.

Lemma parseTimestamp_none s :
  parseTimestamp s = None <->
  time.Parse time.RFC3339 s = None
  /\ time.Parse time.layoutISONoZone s = None
  /\ time.Parse time.layoutSpace s = None.
Proof.
  unfold parseTimestamp.
  destruct (time.Parse time.RFC3339 s), (time.Parse time.layoutISONoZone s),
    (time.Parse time.layoutSpace s); intuition congruence.
Qed.

Lemma isHeaderRow_spec row :
  isHeaderRow row = (3 <=? len row) && looksLikeHeader (nth 0 row "").
Proof.
  unfold isHeaderRow, looksLikeHeader.
  destruct (Z.ltb_spec (len row) 3) as [H|H].
  - replace (3 <=? len row) with false by (symmetry; apply Z.leb_gt; lia). reflexivity.
  - replace (3 <=? len row) with true by (symmetry; apply Z.leb_le; lia).
    cbn [andb].
    destruct (existsb _ headerWords); reflexivity.
Qed.

(** Only [records[0]] is looked at for the header. *)
Lemma parseCSVRecords_first first rest fileName :
  parseCSVRecords (first :: rest) fileName =
    if isHeaderRow first then parseRows fileName 1 rest [] 0 []
    else parseRows fileName 0 (first :: rest) [] 0 [].
Proof.
  unfold parseCSVRecords.
  replace (0 <? len (first :: rest)) with true
    by (symmetry; apply Z.ltb_lt; rewrite len_cons; pose proof (len_nonneg rest); lia).
  cbn [andb nth].
  destruct (isHeaderRow first); reflexivity.
Qed.

(** The loop adds to what it was given: readings and warnings are only
    appended, and the readings and errors together never exceed the rows. *)
Lemma parseRows_grows fileName rows : forall i sensorData errorCount warnings,
  let '(d, e, w) := parseRows fileName i rows sensorData errorCount warnings in
  exists d' w',
    d = sensorData ++ d' /\ w = warnings ++ w'
    /\ e - errorCount = len w'
    /\ len d' + len w' <= len rows.
Proof.
  induction rows as [|record rest IH]; intros i sensorData errorCount warnings.
  - simpl. exists [], []. rewrite !app_nil_r. unfold len; simpl. repeat split; lia.
  - cbn [parseRows]. destruct (parseRow fileName i record) as [|w0|d0].
    + specialize (IH (i + 1) sensorData errorCount warnings).
      destruct (parseRows fileName (i + 1) rest sensorData errorCount warnings) as [[d e] w].
      destruct IH as (d' & w' & -> & -> & He & Hle).
      exists d', w'. rewrite len_cons. repeat split; try assumption; lia.
    + specialize (IH (i + 1) sensorData (errorCount + 1) (warnings ++ [w0])).
      destruct (parseRows fileName (i + 1) rest sensorData (errorCount + 1) (warnings ++ [w0]))
        as [[d e] w].
      destruct IH as (d' & w' & -> & -> & He & Hle).
      exists d', (w0 :: w'). rewrite <- app_assoc. rewrite !len_cons.
      repeat split; try reflexivity; lia.
    + specialize (IH (i + 1) (sensorData ++ [d0]) errorCount warnings).
      destruct (parseRows fileName (i + 1) rest (sensorData ++ [d0]) errorCount warnings)
        as [[d e] w].
      destruct IH as (d' & w' & -> & -> & He & Hle).
      exists (d0 :: d'), w'. rewrite <- app_assoc. rewrite !len_cons.
      repeat split; try reflexivity; lia.
Qed.


(** C2 (as stated) fails: a first row of two columns whose first column is
    a header word satisfies the header condition of the claim, but
    [isHeaderRow] answers false for it. *)
Lemma short_header_counterexample :
  ~ (isHeaderRow shortHeader = true <-> looksLikeHeader (nth 0 shortHeader "") = true).
Proof.
  intros [_ H].
  assert (Hc : looksLikeHeader (nth 0 shortHeader "") = true) by (vm_compute; reflexivity).
  specialize (H Hc). vm_compute in H. discriminate H.
Qed.

(** C2 (amended). A row is a header exactly when it has at least three
    columns and its first column, lowercased and trimmed, contains one of
    the header words or fails to parse as RFC 3339; [parseCSVRecords] asks
    this of the first row only, and the loop never skips a row of three
    columns or more. *)
Theorem header_detection row first rest fileName i record :
  (isHeaderRow row = true <-> 3 <= len row /\ looksLikeHeader (nth 0 row "") = true)
  /\ parseCSVRecords (first :: rest) fileName =
       (if isHeaderRow first then parseRows fileName 1 rest [] 0 []
        else parseRows fileName 0 (first :: rest) [] 0 [])
  /\ (3 <= len record -> parseRow fileName i record <> RowSkipped).
Proof.
  split; [|split].
  - rewrite isHeaderRow_spec, andb_true_iff, Z.leb_le. reflexivity.
  - apply parseCSVRecords_first.
  - intros Hlen. rewrite parseRow_three_columns by assumption. cbv zeta.
    destruct (parseTimestamp _); [|discriminate].
    destruct (String.eqb _ ""); [discriminate|].
    destruct (strconv.ParseFloat _); discriminate.
Qed.

Lemma header_detection_witness :
  isHeaderRow (nth 0 goodRows []) = true
  /\ parseRow "a.csv" 1 (nth 1 goodRows []) <> RowSkipped.
Proof.
  pose proof (header_detection (nth 0 goodRows []) (nth 0 goodRows []) [] "a.csv" 1
                (nth 1 goodRows [])) as (H1 & _ & H3).
  split.
  - apply H1. split; [vm_compute; discriminate | vm_compute; reflexivity].
  - apply H3. vm_compute; discriminate.
Defined.

(** C3. For a row of three columns or more, the trimmed first column is
    parsed with RFC 3339, then "2006-01-02T15:04:05", then
    "2006-01-02 15:04:05"; the first layout that parses gives the timestamp
    of the reading, and when all three fail the row gets the
    invalid-timestamp warning, the error count grows by one, no reading is
    added, and the loop goes on with the next row. *)
Theorem timestamp_fallback_chain fileName i record rest sensorData errorCount warnings :
  3 <= len record ->
  let timestampStr := strings.TrimSpace (nth 0 record "") in
  timestampLayouts = [time.RFC3339; time.layoutISONoZone; time.layoutSpace]
  /\ parseTimestamp timestampStr = firstThatParses timestampLayouts timestampStr
  /\ (forall t, firstThatParses timestampLayouts timestampStr = Some t ->
        parseRow fileName i record
          <> RowRejected (WarnInvalidTimestamp (i + 1) fileName timestampStr)
        /\ forall reading, parseRow fileName i record = RowAccepted reading ->
             Timestamp reading = time.toUTC t)
  /\ (time.Parse time.RFC3339 timestampStr = None ->
      time.Parse time.layoutISONoZone timestampStr = None ->
      time.Parse time.layoutSpace timestampStr = None ->
        parseRow fileName i record
          = RowRejected (WarnInvalidTimestamp (i + 1) fileName timestampStr)
        /\ parseRows fileName i (record :: rest) sensorData errorCount warnings
          = parseRows fileName (i + 1) rest sensorData (errorCount + 1)
              (warnings ++ [WarnInvalidTimestamp (i + 1) fileName timestampStr])).
Proof.
  intros Hlen timestampStr.
  split; [reflexivity|]. split; [apply parseTimestamp_firstThatParses|].
  split.
  - intros t Ht. rewrite <- parseTimestamp_firstThatParses in Ht.
    rewrite parseRow_three_columns by assumption. cbv zeta.
    fold timestampStr. rewrite Ht.
    destruct (String.eqb _ ""); [split; [discriminate | intros ? [=]]|].
    destruct (strconv.ParseFloat _); split; try discriminate.
    intros reading [= <-]. reflexivity.
  - intros H1 H2 H3.
    assert (Hnone : parseTimestamp timestampStr = None)
      by (apply parseTimestamp_none; auto).
    assert (Hrow : parseRow fileName i record
                   = RowRejected (WarnInvalidTimestamp (i + 1) fileName timestampStr)).
    { rewrite parseRow_three_columns by assumption. cbv zeta.
      fold timestampStr. rewrite Hnone. reflexivity. }
    split; [exact Hrow|]. cbn [parseRows]. rewrite Hrow. reflexivity.
Qed.

Lemma timestamp_fallback_chain_witness :
  parseRows "a.csv" 1 [["not a time"; "temp_01"; "21.8"]] [] 0 []
  = ([], 1, [WarnInvalidTimestamp 2 "a.csv" "not a time"]).
Proof.
  pose proof (timestamp_fallback_chain "a.csv" 1 ["not a time"; "temp_01"; "21.8"] [] [] 0 [])
    as H.
  assert (Hlen : 3 <= len ["not a time"; "temp_01"; "21.8"]) by (vm_compute; discriminate).
  destruct (H Hlen) as (_ & _ & _ & H4).
  destruct H4 as [_ Hloop]; [vm_compute; reflexivity ..|].
  rewrite Hloop. vm_compute. reflexivity.
Defined.

(** C5 (as stated) fails: the row passes the earlier checks and its value
    "NaN" is not a finite float, yet the row is not rejected. *)
Lemma nan_value_counterexample :
  ~ (passesEarlierChecks nanRow ->
     parsesAsFiniteFloat (strings.TrimSpace (nth 2 nanRow "")) = false ->
     exists warning, parseRow "a.csv" 0 nanRow = RowRejected warning).
Proof.
  intros H.
  destruct H as [w Hw].
  - repeat split; vm_compute; discriminate.
  - vm_compute. reflexivity.
  - vm_compute in Hw. discriminate Hw.
Qed.

(** C5 (amended). For a row that passes the column-count, timestamp and
    sensor-name checks, the trimmed third column goes through
    [strconv.ParseFloat]: when that returns an error (text that is not a
    number, a magnitude out of range) the row gets the invalid-value
    warning, the error count grows by one and no reading is added; every
    value it accepts is emitted as a reading, and it accepts the special
    values NaN and infinity. *)
Theorem value_parsing fileName i record rest sensorData errorCount warnings t :
  3 <= len record ->
  parseTimestamp (strings.TrimSpace (nth 0 record "")) = Some t ->
  strings.TrimSpace (nth 1 record "") <> "" ->
  let valueStr := strings.TrimSpace (nth 2 record "") in
  (strconv.ParseFloat valueStr = None ->
     parseRows fileName i (record :: rest) sensorData errorCount warnings
     = parseRows fileName (i + 1) rest sensorData (errorCount + 1)
         (warnings ++ [WarnInvalidValue (i + 1) fileName valueStr]))
  /\ (forall v, strconv.ParseFloat valueStr = Some v ->
     parseRows fileName i (record :: rest) sensorData errorCount warnings
     = parseRows fileName (i + 1) rest
         (sensorData ++ [mkSensorData (time.toUTC t)
                                      (strings.TrimSpace (nth 1 record "")) v])
         errorCount warnings)
  /\ strconv.ParseFloat "notanumber" = None
  /\ strconv.ParseFloat "1e400" = None
  /\ strconv.ParseFloat "NaN" = Some strconv.NaN
  /\ strconv.ParseFloat "Inf" = Some (strconv.Inf false)
  /\ strconv.ParseFloat "-Infinity" = Some (strconv.Inf true).
Proof.
  intros Hlen Hts Hname valueStr.
  assert (Hrow : parseRow fileName i record =
                 match strconv.ParseFloat valueStr with
                 | None => RowRejected (WarnInvalidValue (i + 1) fileName valueStr)
                 | Some value =>
                     RowAccepted (mkSensorData (time.toUTC t)
                                    (strings.TrimSpace (nth 1 record "")) value)
                 end).
  { rewrite parseRow_three_columns by assumption. cbv zeta. rewrite Hts.
    destruct (String.eqb_spec (strings.TrimSpace (nth 1 record "")) "") as [E|_];
      [contradiction|reflexivity]. }
  split; [|split].
  - intros Hv. cbn [parseRows]. rewrite Hrow, Hv. reflexivity.
  - intros v Hv. cbn [parseRows]. rewrite Hrow, Hv. reflexivity.
  - repeat split; vm_compute; reflexivity.
Qed.

Lemma value_parsing_witness :
  parseRows "a.csv" 2 [nth 2 badRows []] [] 0 []
  = ([], 1, [WarnInvalidValue 3 "a.csv" "notanumber"]).
Proof.
  assert (Hlen : 3 <= len (nth 2 badRows [])) by (vm_compute; discriminate).
  assert (Hts : parseTimestamp (strings.TrimSpace (nth 0 (nth 2 badRows []) ""))
                = Some (time.mkTime 1757059200 0 time.UTC)) by (vm_compute; reflexivity).
  assert (Hname : strings.TrimSpace (nth 1 (nth 2 badRows []) "") <> "")
    by (vm_compute; discriminate).
  destruct (value_parsing "a.csv" 2 (nth 2 badRows []) [] [] 0 [] _ Hlen Hts Hname)
    as (Hbad & _).
  rewrite Hbad by (vm_compute; reflexivity).
  vm_compute. reflexivity.
Defined.

(** C10. A first row of three columns or more, without a header word in
    its first column, whose first column parses under one of the two
    zone-less layouts but not as RFC 3339, is taken as the header: the
    result is that of the remaining rows alone, so the row adds neither a
    reading nor an error, although its timestamp is one the row parser
    accepts. *)
Theorem zoneless_first_row_skipped row rest fileName :
  3 <= len row ->
  existsb (fun word =>
             strings.Contains (strings.ToLower (strings.TrimSpace (nth 0 row ""))) word)
          headerWords = false ->
  time.Parse time.layoutISONoZone (strings.TrimSpace (nth 0 row "")) <> None
  \/ time.Parse time.layoutSpace (strings.TrimSpace (nth 0 row "")) <> None ->
  time.Parse time.RFC3339 (strings.TrimSpace (nth 0 row "")) = None ->
  isHeaderRow row = true
  /\ parseCSVRecords (row :: rest) fileName = parseRows fileName 1 rest [] 0 []
  /\ parseTimestamp (strings.TrimSpace (nth 0 row "")) <> None
  /\ (let '(sensorData, errorCount, _) := parseCSVRecords (row :: rest) fileName in
      len sensorData + errorCount <= len rest).
Proof.
  intros Hlen Hwords Halt Hrfc.
  assert (Hhdr : isHeaderRow row = true).
  { rewrite isHeaderRow_spec. unfold looksLikeHeader. rewrite Hwords, Hrfc.
    replace (3 <=? len row) with true by (symmetry; apply Z.leb_le; lia). reflexivity. }
  assert (Hrun : parseCSVRecords (row :: rest) fileName = parseRows fileName 1 rest [] 0 [])
    by (rewrite parseCSVRecords_first, Hhdr; reflexivity).
  split; [exact Hhdr|]. split; [exact Hrun|]. split.
  - rewrite parseTimestamp_none. intros (_ & H2 & H3). destruct Halt; contradiction.
  - rewrite Hrun. pose proof (parseRows_grows fileName rest 1 [] 0 []) as G.
    destruct (parseRows fileName 1 rest [] 0 []) as [[d e] w].
    destruct G as (d' & w' & -> & -> & He & Hle). cbn [app]. lia.
Qed.

Lemma zoneless_first_row_skipped_witness :
  parseCSVRecords [["2025-09-05T08:00:00"; "temp_01"; "21.8"];
                   ["2025-09-05 08:05:00"; "temp_01"; "22.1"]] "a.csv"
  = ([mkSensorData (time.mkTime 1757059500 0 time.UTC) "temp_01"
        (strconv.Finite (221 # 10))], 0, []).
Proof.
  destruct (zoneless_first_row_skipped ["2025-09-05T08:00:00"; "temp_01"; "21.8"]
              [["2025-09-05 08:05:00"; "temp_01"; "22.1"]] "a.csv")
    as (_ & Hrun & _).
  - vm_compute; discriminate.
  - vm_compute; reflexivity.
  - left. vm_compute; discriminate.
  - vm_compute; reflexivity.
  - rewrite Hrun. vm_compute. reflexivity.
Defined.

End RecordParser.

(** * Properties of the summary reporter *)

Section SummaryReporter.

Lemma wrap64_add_l a b : wrap64 (wrap64 a + b) = wrap64 (a + b).
Proof.
  unfold wrap64.
  replace ((a + 2 ^ 63) mod 2 ^ 64 - 2 ^ 63 + b + 2 ^ 63)
    with ((a + 2 ^ 63) mod 2 ^ 64 + b) by lia.
  rewrite Z.add_mod_idemp_l by lia.
  replace (a + 2 ^ 63 + b) with (a + b + 2 ^ 63) by lia. reflexivity.
Qed.

Lemma wrap64_idem a : wrap64 (wrap64 a) = wrap64 a.
Proof.
  transitivity (wrap64 (wrap64 a + 0)); [f_equal; lia|].
  rewrite wrap64_add_l. f_equal. lia.
Qed.

Lemma sumOf_cons f r rs : sumOf f (r :: rs) = f r + sumOf f rs.
Proof. reflexivity. Qed.

Lemma sumOf_Permutation f l l' : Permutation l l' -> sumOf f l = sumOf f l'.
Proof.
  induction 1 as [|x l l' _ IH|x y l|l l' l'' _ IH1 _ IH2].
  - reflexivity.
  - rewrite !sumOf_cons, IH. reflexivity.
  - rewrite !sumOf_cons. lia.
  - congruence.
Qed.

Lemma filter_Permutation {A} (p : A -> bool) l l' :
  Permutation l l' -> Permutation (filter p l) (filter p l').
Proof.
  induction 1 as [|x l l' _ IH|x y l|l l' l'' _ IH1 _ IH2]; cbn [filter].
  - constructor.
  - destruct (p x); [constructor|]; exact IH.
  - destruct (p x), (p y); try reflexivity. constructor.
  - etransitivity; eassumption.
Qed.

Lemma len_Permutation {A} (l l' : list A) : Permutation l l' -> len l = len l'.
Proof. intros H. unfold len. rewrite (Permutation_length H). reflexivity. Qed.

Lemma summaryStep_totals s lines r :
  fst (summaryStep (s, lines) r) =
    if failed r then
      mkSummary (totalFiles s) (successfulFiles s) (failedFiles s + 1)
                (totalRecords s) (totalErrors s)
                (wrap64 (totalDuration s + Duration r))
    else
      mkSummary (totalFiles s) (successfulFiles s + 1) (failedFiles s)
                (wrap64 (totalRecords s + RecordCount r))
                (wrap64 (totalErrors s + ErrorCount r))
                (wrap64 (totalDuration s + Duration r)).
Proof. unfold summaryStep, failed. destruct (ResultError r); reflexivity. Qed.

(** The loop of [displaySummary] from any totals that are in range. *)
Lemma summaryLoop_from results : forall s lines,
  wrap64 (totalRecords s) = totalRecords s ->
  wrap64 (totalErrors s) = totalErrors s ->
  wrap64 (totalDuration s) = totalDuration s ->
  fst (fold_left summaryStep results (s, lines)) =
    mkSummary (totalFiles s)
              (successfulFiles s + len (filter succeeded results))
              (failedFiles s + len (filter failed results))
              (wrap64 (totalRecords s + sumOf RecordCount (filter succeeded results)))
              (wrap64 (totalErrors s + sumOf ErrorCount (filter succeeded results)))
              (wrap64 (totalDuration s + sumOf Duration results)).
Proof.
  induction results as [|r rs IH]; intros s lines Hr He Hd.
  - cbn. rewrite !Z.add_0_r, Hr, He, Hd. destruct s; reflexivity.
  - cbn [fold_left].
    pose proof (summaryStep_totals s lines r) as Hstep.
    destruct (summaryStep (s, lines) r) as [s' lines']. cbn [fst] in Hstep.
    cbn [filter]. change (succeeded r) with (negb (failed r)).
    destruct (failed r); cbn [negb]; subst s'.
    + rewrite IH; cbn [totalFiles successfulFiles failedFiles totalRecords
                       totalErrors totalDuration]; try assumption; try apply wrap64_idem.
      rewrite wrap64_add_l, sumOf_cons, len_cons.
      f_equal; try lia; f_equal; lia.
    + rewrite IH; cbn [totalFiles successfulFiles failedFiles totalRecords
                       totalErrors totalDuration]; try apply wrap64_idem.
      rewrite !wrap64_add_l, !sumOf_cons, len_cons.
      f_equal; try lia; f_equal; lia.
Qed.

Lemma summaryTotals_summaryOf results : summaryTotals results = summaryOf results.
Proof.
  unfold summaryTotals, summaryLoop, summaryOf.
  rewrite summaryLoop_from by reflexivity.
  cbn [totalFiles successfulFiles failedFiles totalRecords totalErrors totalDuration].
  reflexivity.
Qed.

(** C8. The totals of the summary are those of the multiset of results:
    failed results count as failed files and add their duration only,
    successful results add their records, errors and duration; so every
    permutation of the results has the same totals. *)
Theorem summary_order_insensitive results results' :
  Permutation results results' ->
  summaryTotals results = summaryTotals results'
  /\ summaryTotals results = summaryOf results
  /\ totalFiles (summaryOf results) = len results
  /\ successfulFiles (summaryOf results) = len (filter succeeded results)
  /\ failedFiles (summaryOf results) = len (filter failed results)
  /\ totalRecords (summaryOf results) = wrap64 (sumOf RecordCount (filter succeeded results))
  /\ totalErrors (summaryOf results) = wrap64 (sumOf ErrorCount (filter succeeded results))
  /\ totalDuration (summaryOf results) = wrap64 (sumOf Duration results).
Proof.
  intros Hperm. split; [|split; [apply summaryTotals_summaryOf | repeat split]].
  rewrite !summaryTotals_summaryOf. unfold summaryOf.
  rewrite (len_Permutation _ _ Hperm).
  rewrite (len_Permutation _ _ (filter_Permutation succeeded _ _ Hperm)).
  rewrite (len_Permutation _ _ (filter_Permutation failed _ _ Hperm)).
  rewrite (sumOf_Permutation RecordCount _ _ (filter_Permutation succeeded _ _ Hperm)).
  rewrite (sumOf_Permutation ErrorCount _ _ (filter_Permutation succeeded _ _ Hperm)).
  rewrite (sumOf_Permutation Duration _ _ Hperm).
  reflexivity.
Qed.

Lemma summary_order_insensitive_witness :
  summaryTotals [mkResult "dir/a.csv" 2 0 5 None;
                 mkResult "dir/b.csv" 7 1 3 (Some ErrEmptyCSV)]
  = summaryTotals [mkResult "dir/b.csv" 7 1 3 (Some ErrEmptyCSV);
                   mkResult "dir/a.csv" 2 0 5 None].
Proof.
  apply (summary_order_insensitive
           [mkResult "dir/a.csv" 2 0 5 None; mkResult "dir/b.csv" 7 1 3 (Some ErrEmptyCSV)]
           [mkResult "dir/b.csv" 7 1 3 (Some ErrEmptyCSV); mkResult "dir/a.csv" 2 0 5 None]).
  apply perm_swap.
Defined.

(** A result with a terminal error counts as one failed file and adds
    nothing to the successful files, the records and the errors. *)
Lemma failed_result_in_summary r before after :
  failed r = true ->
  let with_r := summaryTotals (before ++ r :: after) in
  let without := summaryTotals (before ++ after) in
  failedFiles with_r = failedFiles without + 1
  /\ successfulFiles with_r = successfulFiles without
  /\ totalRecords with_r = totalRecords without
  /\ totalErrors with_r = totalErrors without.
Proof.
  intros Hf. cbv zeta. rewrite !summaryTotals_summaryOf. unfold summaryOf.
  cbn [failedFiles successfulFiles totalRecords totalErrors].
  rewrite !filter_app. cbn [filter]. change (succeeded r) with (negb (failed r)).
  rewrite Hf. cbn [negb]. rewrite !len_app, len_cons. repeat split; lia.
Qed.

End SummaryReporter.

(** * Properties of the file processor *)

Section FileProcessor.

Context {DB : Type} {persistence : Persistence DB}.

Lemma parseCSVRecords_badRows fileName :
  parseCSVRecords badRows fileName
  = ([], 2, [WarnEmptySensorName 2 fileName; WarnInvalidValue 3 fileName "notanumber"]).
Proof. vm_compute. reflexivity. Qed.

(** C1 (amended). For the file of the three rows [bad_ts,temp_01,21.8],
    [2025-09-05T08:00:00Z,,21.8] and
    [2025-09-05T08:00:00Z,temp_01,notanumber], the first row is taken as a
    header, because its first column does not parse as RFC 3339, and is
    skipped without a warning; the result has RecordCount 0 and ErrorCount
    2, no terminal error, and the two remaining rows are logged with the
    distinct reasons empty sensor name (row 2) and invalid value (row 3);
    the store is not called. *)
Theorem bad_rows_scenario env job (st : State DB) :
  readCSV env (FilePath job) = Records badRows ->
  isHeaderRow (nth 0 badRows []) = true
  /\ processCSVFile env job st =
       (mkResult (FilePath job) 0 2 (since env (FilePath job)) None,
        mkState (db st) (calls st)
          (logged st ++ [LogProcessing (FileName job)]
             ++ [WarnEmptySensorName 2 (FileName job);
                 WarnInvalidValue 3 (FileName job) "notanumber"]
             ++ [LogCompleted (FileName job) 0 2 (since env (FilePath job))])).
Proof.
  intros Hread. split; [vm_compute; reflexivity|].
  unfold processCSVFile, bind, logf, logAll, ret. rewrite Hread.
  change (len badRows =? 0) with false. cbv iota.
  rewrite parseCSVRecords_badRows.
  change (0 <? len (@nil SensorData)) with false. cbv iota beta.
  cbn [db calls logged]. rewrite <- !app_assoc. reflexivity.
Qed.

(** C6. A file without rows gives a result with the empty-file error,
    RecordCount 0 and ErrorCount 0; the store is not touched, and in the
    totals of any summary the result counts as one failed file and adds
    nothing to the successful files, the records and the errors. *)
Theorem empty_file_fails env job (st : State DB) before after :
  readCSV env (FilePath job) = Records [] ->
  let result := fst (processCSVFile env job st) in
  let st' := snd (processCSVFile env job st) in
  result = mkResult (FilePath job) 0 0 (since env (FilePath job)) (Some ErrEmptyCSV)
  /\ db st' = db st /\ calls st' = calls st
  /\ failedFiles (summaryTotals (before ++ result :: after))
     = failedFiles (summaryTotals (before ++ after)) + 1
  /\ successfulFiles (summaryTotals (before ++ result :: after))
     = successfulFiles (summaryTotals (before ++ after))
  /\ totalRecords (summaryTotals (before ++ result :: after))
     = totalRecords (summaryTotals (before ++ after))
  /\ totalErrors (summaryTotals (before ++ result :: after))
     = totalErrors (summaryTotals (before ++ after)).
Proof.
  intros Hread.
  assert (Hrun : processCSVFile env job st =
                 (mkResult (FilePath job) 0 0 (since env (FilePath job)) (Some ErrEmptyCSV),
                  mkState (db st) (calls st) (logged st ++ [LogProcessing (FileName job)]))).
  { unfold processCSVFile, bind, logf, ret. rewrite Hread. reflexivity. }
  cbv zeta. rewrite Hrun. cbn [fst snd db calls].
  split; [reflexivity|]. split; [reflexivity|]. split; [reflexivity|].
  apply (failed_result_in_summary _ before after). reflexivity.
Qed.

End FileProcessor.

Lemma empty_file_fails_witness :
  fst (processCSVFile (oneFileEnv []) (mkFileJob "dir/a.CSV" "a.CSV") emptyStore)
  = mkResult "dir/a.CSV" 0 0 5 (Some ErrEmptyCSV)
  /\ failedFiles (summaryTotals
       [fst (processCSVFile (oneFileEnv []) (mkFileJob "dir/a.CSV" "a.CSV") emptyStore)]) = 1.
Proof.
  destruct (empty_file_fails (oneFileEnv []) (mkFileJob "dir/a.CSV" "a.CSV") emptyStore [] [])
    as (Hres & _ & _ & Hfailed & _).
  - vm_compute. reflexivity.
  - split; [exact Hres | exact Hfailed].
Defined.

Lemma bad_rows_scenario_witness :
  fst (processCSVFile (oneFileEnv badRows) (mkFileJob "dir/a.CSV" "a.CSV") emptyStore)
  = mkResult "dir/a.CSV" 0 2 5 None.
Proof.
  destruct (bad_rows_scenario (oneFileEnv badRows) (mkFileJob "dir/a.CSV" "a.CSV") emptyStore)
    as (_ & Hrun).
  - vm_compute. reflexivity.
  - rewrite Hrun. reflexivity.
Defined.

(** C1 (as stated) fails: the file of the three rows gives ErrorCount 2,
    not 3, because the first row is skipped as a header. *)
Lemma bad_rows_counterexample :
  let result :=
    fst (processCSVFile (oneFileEnv badRows) (mkFileJob "dir/a.CSV" "a.CSV") emptyStore) in
  ~ (RecordCount result = 0 /\ ErrorCount result = 3).
Proof.
  vm_compute. intros [_ H]. discriminate H.
Qed.

(** * Properties of the persistence routines *)

Section Persistence.

Context {DB : Type} {persistence : Persistence DB}.

Lemma singleCallsFor_only_single batch cs c :
  singleCallsFor batch cs -> In c cs -> exists record err, c = SingleCall record err.
Proof.
  induction 1 as [|record c0 batch' cs' [err ->] _ IH]; intros Hin.
  - destruct Hin.
  - destruct Hin as [<-|Hin]; [eauto | auto].
Qed.

Lemma singleCallsFor_length batch cs :
  singleCallsFor batch cs -> List.length cs = List.length batch.
Proof. intros H. symmetry. exact (Forall2_length H). Qed.

Lemma lastErrorOf_cons c cs lastError :
  lastErrorOf (c :: cs) lastError
  = lastErrorOf cs (match callError c with Some e => Some e | None => lastError end).
Proof. reflexivity. Qed.

Lemma successes_cons c cs :
  successes (c :: cs)
  = (match callError c with Some _ => 0 | None => 1 end) + successes cs.
Proof.
  unfold successes. cbn [filter]. destruct (callError c); [lia|].
  rewrite len_cons. lia.
Qed.

(** The loop of [individualInsert] calls [Create] once for every record,
    in order; its counters follow the outcomes. *)
Lemma individualInsertLoop_calls data : forall lastError successCount (st : State DB),
  exists cs,
    calls (snd (individualInsertLoop data lastError successCount st)) = calls st ++ cs
    /\ singleCallsFor data cs
    /\ fst (individualInsertLoop data lastError successCount st)
       = (lastErrorOf cs lastError, successCount + successes cs).
Proof.
  induction data as [|record rest IH]; intros lastError successCount st.
  - exists []. cbn. rewrite app_nil_r, Z.add_0_r.
    split; [reflexivity|]. split; [constructor | reflexivity].
  - cbn [individualInsertLoop]. unfold bind at 1 3. unfold dbCreate at 1 2.
    destruct (Create (db st) record) as [db' err].
    destruct err as [e|].
    + unfold bind at 1 2, logf at 1 2.
      match goal with
      | |- context [individualInsertLoop rest ?le ?sc ?s] =>
          destruct (IH le sc s) as (cs & Hcs & Hsingle & Hres)
      end.
      exists (SingleCall record (Some e) :: cs). rewrite Hcs, Hres. cbn [calls].
      rewrite <- app_assoc, lastErrorOf_cons, successes_cons. cbn [callError].
      split; [reflexivity|]. split.
      * constructor; [eexists; reflexivity | exact Hsingle].
      * f_equal.
    + match goal with
      | |- context [individualInsertLoop rest ?le ?sc ?s] =>
          destruct (IH le sc s) as (cs & Hcs & Hsingle & Hres)
      end.
      exists (SingleCall record None :: cs). rewrite Hcs, Hres. cbn [calls].
      rewrite <- app_assoc, lastErrorOf_cons, successes_cons. cbn [callError].
      split; [reflexivity|]. split.
      * constructor; [eexists; reflexivity | exact Hsingle].
      * f_equal. lia.
Qed.

Lemma individualInsert_calls data (st : State DB) :
  exists cs,
    calls (snd (individualInsert data st)) = calls st ++ cs
    /\ singleCallsFor data cs
    /\ fst (individualInsert data st) = fallbackOutcome cs.
Proof.
  unfold individualInsert, bind.
  destruct (individualInsertLoop_calls data None 0 st) as (cs & Hcs & Hsingle & Hres).
  destruct (individualInsertLoop data None 0 st) as [[lastError successCount] st1].
  cbn [fst snd] in Hcs, Hres. injection Hres as -> ->.
  exists cs. split; [|split; [exact Hsingle|]].
  - destruct (lastErrorOf cs None) as [e|]; [|exact Hcs].
    destruct (successes cs =? 0); [exact Hcs|].
    unfold logf, ret. cbn [snd calls]. exact Hcs.
  - unfold fallbackOutcome.
    destruct (lastErrorOf cs None) as [e|]; [|reflexivity].
    destruct (successes cs =? 0); reflexivity.
Qed.

Lemma chunkAt_slice data i :
  slice data i (if len data <? i + batchSize then len data else i + batchSize)
  = chunkAt data i.
Proof.
  unfold chunkAt. f_equal.
  destruct (Z.ltb_spec (len data) (i + batchSize)); lia.
Qed.

(** With enough fuel, the store calls of the batch loop have the shape of
    [BatchTrace]. *)
Lemma batchInsertFrom_trace data : forall fuel i (st : State DB),
  len data - i <= Z.of_nat fuel ->
  exists t,
    calls (snd (batchInsertFrom fuel data i st)) = calls st ++ t
    /\ BatchTrace data i t (fst (batchInsertFrom fuel data i st)).
Proof.
  induction fuel as [|fuel IH]; intros i st Hfuel.
  - exists []. cbn. rewrite app_nil_r. split; [reflexivity|].
    apply trace_done. lia.
  - cbn [batchInsertFrom]. destruct (Z.ltb_spec i (len data)) as [Hi|Hi].
    + rewrite chunkAt_slice. unfold bind at 1 2. unfold dbCreateInBatches at 1 2.
      destruct (CreateInBatches (db st) (chunkAt data i)) as [db' err].
      destruct err as [e|].
      * match goal with
        | |- context [individualInsert ?b ?s] =>
            destruct (individualInsert_calls b s) as (cs & Hcs & Hsingle & Hres)
        end.
        exists (BatchCall (chunkAt data i) (Some e) :: cs). rewrite Hcs, Hres. cbn [calls].
        rewrite <- app_assoc. split; [reflexivity|].
        apply trace_batch_failed; assumption.
      * match goal with
        | |- context [batchInsertFrom fuel data ?j ?s] =>
            destruct (IH j s) as (t & Ht & Htrace)
        end.
        { unfold batchSize. lia. }
        exists (BatchCall (chunkAt data i) None :: t). rewrite Ht. cbn [calls].
        rewrite <- app_assoc. split; [reflexivity|].
        apply trace_batch_ok; assumption.
    + exists []. cbn. rewrite app_nil_r. split; [reflexivity|].
      apply trace_done. lia.
Qed.

(** The fuel of [batchInsertSensorData] is enough: more fuel changes
    nothing. *)
Lemma batchInsertFrom_fuel data : forall fuel fuel' i (st : State DB),
  len data - i <= Z.of_nat fuel -> len data - i <= Z.of_nat fuel' ->
  batchInsertFrom fuel data i st = batchInsertFrom fuel' data i st.
Proof.
  induction fuel as [|fuel IH]; intros fuel' i st H H'.
  - destruct fuel' as [|fuel']; [reflexivity|]. cbn [batchInsertFrom].
    replace (i <? len data) with false by (symmetry; apply Z.ltb_ge; lia). reflexivity.
  - destruct fuel' as [|fuel']; cbn [batchInsertFrom].
    + replace (i <? len data) with false by (symmetry; apply Z.ltb_ge; lia). reflexivity.
    + destruct (Z.ltb_spec i (len data)) as [Hi|Hi]; [|reflexivity].
      unfold bind. destruct (dbCreateInBatches _ st) as [[e|] st1]; [reflexivity|].
      apply IH; unfold batchSize; lia.
Qed.

(** A failed batch in a trace: the calls before it are the successful
    batches of the chunks before, the calls after it are the individual
    inserts of its own records. *)
Lemma BatchTrace_failed_batch data i t r :
  BatchTrace data i t r ->
  forall pre batch e post,
    t = pre ++ BatchCall batch (Some e) :: post ->
    exists k : nat,
      pre = map (fun j => BatchCall (chunkAt data (i + Z.of_nat j * batchSize)) None) (seq 0 k)
      /\ batch = chunkAt data (i + Z.of_nat k * batchSize)
      /\ i + Z.of_nat k * batchSize < len data
      /\ singleCallsFor batch post
      /\ r = fallbackOutcome post.
Proof.
  induction 1 as [i Hi|i t r Hi Htrace IH|i e0 cs Hi Hsingle]; intros pre batch e post Heq.
  - destruct pre; discriminate Heq.
  - destruct pre as [|p pre].
    + cbn in Heq. discriminate Heq.
    + cbn in Heq. injection Heq as <- ->.
      destruct (IH _ _ _ _ eq_refl) as (k & Hpre & Hbatch & Hlt & Hsingle & Hres).
      exists (S k). cbn [seq map]. rewrite <- seq_shift, map_map.
      replace (i + Z.of_nat 0 * batchSize) with i by lia.
      split; [|split; [|split; [|split]]].
      * f_equal. rewrite Hpre. apply map_ext. intros j. do 2 f_equal. lia.
      * rewrite Hbatch. f_equal. lia.
      * lia.
      * exact Hsingle.
      * exact Hres.
  - destruct pre as [|p pre].
    + cbn in Heq. injection Heq as <- <- <-.
      exists O. cbn [seq map]. replace (i + Z.of_nat 0 * batchSize) with i by lia.
      repeat split; try assumption; reflexivity.
    + cbn in Heq. injection Heq as <- ->.
      destruct (singleCallsFor_only_single _ _ (BatchCall batch (Some e)) Hsingle)
        as (r & err & Habs); [|discriminate Habs].
      apply in_or_app. right. left. reflexivity.
Qed.

(** C9. When the batch insert of a chunk fails, the calls the store has
    received before it are the successful batch inserts of the chunks
    before, and the calls after it are one individual insert for each
    record of the failed chunk, in order, and nothing else: no record of a
    later chunk is attempted, neither in a batch nor individually, and the
    routine returns what the fallback for that chunk returns. *)
Theorem failed_chunk_ends_insertion data (st : State DB) pre batch e post :
  batchSize < len data ->
  calls (snd (batchInsertSensorData data st))
    = calls st ++ pre ++ BatchCall batch (Some e) :: post ->
  exists k : nat,
    pre = map (fun j => BatchCall (chunkAt data (Z.of_nat j * batchSize)) None) (seq 0 k)
    /\ batch = chunkAt data (Z.of_nat k * batchSize)
    /\ Z.of_nat k * batchSize < len data
    /\ singleCallsFor batch post
    /\ List.length post = List.length batch
    /\ len batch <= batchSize
    /\ fst (batchInsertSensorData data st) = fallbackOutcome post.
Proof.
  intros _ Hcalls. unfold batchInsertSensorData in *.
  destruct (batchInsertFrom_trace data (List.length data) 0 st) as (t & Ht & Htrace).
  { unfold len. lia. }
  rewrite Ht in Hcalls. apply app_inv_head in Hcalls.
  destruct (BatchTrace_failed_batch _ _ _ _ Htrace _ _ _ _ Hcalls)
    as (k & Hpre & Hbatch & Hlt & Hsingle & Hres).
  exists k. cbn [Z.add] in *. repeat split; try assumption.
  - apply singleCallsFor_length. exact Hsingle.
  - rewrite Hbatch. unfold chunkAt, slice, len. rewrite length_firstn.
    unfold batchSize, len in *. lia.
Qed.

End Persistence.

(** * Re-running over a store that holds the readings already *)

Section Rerun.

Lemma sameKey_refl d : Store.sameKey d d = true.
Proof.
  unfold Store.sameKey. rewrite !Z.eqb_refl, String.eqb_refl. reflexivity.
Qed.

(** A stored reading conflicts with itself. *)
Lemma conflicts_In rows d : In d rows -> Store.conflicts rows d = true.
Proof.
  intros H. unfold Store.conflicts. apply existsb_exists.
  exists d. split; [exact H | apply sameKey_refl].
Qed.

Lemma insertBatch_conflict rows record rest :
  Store.conflicts rows record = true ->
  Store.insertBatch rows (record :: rest) = (rows, Some DuplicateKey).
Proof.
  intros H. unfold Store.insertBatch. cbn [Store.insertAll]. rewrite H. reflexivity.
Qed.

(** Every individual insert of a stored reading fails on its key and
    leaves the store as it is. *)
Lemma individualInsertLoop_all_stored data :
  forall lastError successCount (st : State Store.T),
  (forall d, In d data -> Store.conflicts (db st) d = true) ->
  individualInsertLoop data lastError successCount st
  = ((match data with [] => lastError | _ :: _ => Some DuplicateKey end, successCount),
     mkState (db st) (calls st ++ duplicateSingles data)
             (logged st ++ duplicateWarnings data)).
Proof.
  induction data as [|record rest IH]; intros lastError successCount st Hall.
  - cbn. rewrite !app_nil_r. destruct st; reflexivity.
  - cbn [individualInsertLoop]. unfold bind at 1. unfold dbCreate at 1.
    cbn [Create Store.persistence]. unfold Store.insert.
    rewrite (Hall record (or_introl eq_refl)).
    unfold bind at 1, logf at 1. rewrite IH.
    + cbn [db calls logged duplicateSingles duplicateWarnings map].
      rewrite <- !app_assoc. cbn [app]. destruct rest; reflexivity.
    + intros d Hd. cbn [db]. apply Hall. right. exact Hd.
Qed.

Lemma individualInsert_all_stored data (st : State Store.T) :
  data <> [] ->
  (forall d, In d data -> Store.conflicts (db st) d = true) ->
  individualInsert data st
  = (Some (ErrInsertAny DuplicateKey),
     mkState (db st) (calls st ++ duplicateSingles data)
             (logged st ++ duplicateWarnings data)).
Proof.
  intros Hne Hall. unfold individualInsert, bind.
  rewrite individualInsertLoop_all_stored by assumption.
  destruct data; [contradiction|]. reflexivity.
Qed.

Lemma chunkAt_0_cons (d : SensorData) data :
  exists rest, chunkAt (d :: data) 0 = d :: rest
               /\ forall x, In x (d :: rest) -> In x (d :: data).
Proof.
  unfold chunkAt, slice. cbn [Z.to_nat skipn].
  assert (H : exists n, Z.to_nat (Z.min (len (d :: data)) (0 + batchSize) - 0) = S n).
  { exists (Z.to_nat (Z.min (len (d :: data)) (0 + batchSize) - 0) - 1)%nat.
    rewrite len_cons. pose proof (len_nonneg data). unfold batchSize. lia. }
  destruct H as [n ->]. cbn [firstn]. eexists. split; [reflexivity|].
  intros x [<-|Hx]; [left; reflexivity|]. right.
  rewrite <- (firstn_skipn n data). apply in_or_app. left. exact Hx.
Qed.

(** The batch loop over stored readings: the first batch fails, its
    records fail one by one, and the error comes back. *)
Lemma batchInsertSensorData_all_stored data (st : State Store.T) :
  data <> [] ->
  (forall d, In d data -> Store.conflicts (db st) d = true) ->
  batchInsertSensorData data st
  = (Some (ErrInsertAny DuplicateKey),
     mkState (db st)
             (calls st ++ BatchCall (chunkAt data 0) (Some DuplicateKey)
                :: duplicateSingles (chunkAt data 0))
             (logged st ++ duplicateWarnings (chunkAt data 0))).
Proof.
  intros Hne Hall. destruct data as [|d data]; [contradiction|].
  unfold batchInsertSensorData. cbn [List.length batchInsertFrom].
  replace (0 <? len (d :: data)) with true
    by (symmetry; apply Z.ltb_lt; rewrite len_cons; pose proof (len_nonneg data); lia).
  rewrite chunkAt_slice.
  destruct (chunkAt_0_cons d data) as (rest & Hchunk & Hin). rewrite Hchunk.
  unfold bind at 1. unfold dbCreateInBatches at 1. cbn [CreateInBatches Store.persistence].
  rewrite insertBatch_conflict by (apply Hall; left; reflexivity).
  rewrite individualInsert_all_stored.
  - cbn [db calls logged]. rewrite <- app_assoc. reflexivity.
  - discriminate.
  - intros x Hx. cbn [db]. apply Hall. apply Hin. exact Hx.
Qed.

(** One file whose readings are all stored. *)
Lemma processCSVFile_all_stored env job (st : State Store.T) :
  (forall records d,
      readCSV env (FilePath job) = Records records ->
      In d (fst (fst (parseCSVRecords records (FileName job)))) ->
      Store.conflicts (db st) d = true) ->
  let result := fst (processCSVFile env job st) in
  let st' := snd (processCSVFile env job st) in
  db st' = db st
  /\ ResultPath result = FilePath job
  /\ (0 < RecordCount result ->
      ResultError result = Some (ErrInsertData (ErrInsertAny DuplicateKey)))
  /\ (exists cs, calls st' = calls st ++ cs /\ Forall duplicateCall cs)
  /\ (forall records, readCSV env (FilePath job) = Records records ->
      fst (fst (parseCSVRecords records (FileName job))) <> [] ->
      calls st' = calls st
                  ++ BatchCall (chunkAt (fst (fst (parseCSVRecords records (FileName job)))) 0)
                       (Some DuplicateKey)
                  :: duplicateSingles
                       (chunkAt (fst (fst (parseCSVRecords records (FileName job)))) 0)).
Proof.
  intros Hall. cbv zeta. unfold processCSVFile, bind, logf, logAll, ret.
  destruct (readCSV env (FilePath job)) as [err|err|records] eqn:Hread; cbn [fst snd db calls].
  1, 2: repeat split; try reflexivity; try (cbn; lia);
        [exists []; rewrite app_nil_r; split; [reflexivity | constructor] | discriminate].
  destruct (Z.eqb_spec (len records) 0) as [H0|H0]; cbn [fst snd db calls].
  - repeat split; try reflexivity; try (cbn; lia).
    + exists []. rewrite app_nil_r. split; [reflexivity | constructor].
    + intros records' [= <-] Hne. exfalso. apply Hne.
      destruct records; [reflexivity|]. rewrite len_cons in H0.
      pose proof (len_nonneg records). lia.
  - specialize (Hall records).
    destruct (parseCSVRecords records (FileName job))
      as [[sensorData errorCount] warnings] eqn:Hparse.
    cbn [fst] in Hall.
    destruct sensorData as [|d sensorData].
    + change (0 <? len (@nil SensorData)) with false. cbv iota. cbn [fst snd db calls RecordCount].
      repeat split; try reflexivity; try (cbn; lia).
      * exists []. rewrite app_nil_r. split; [reflexivity | constructor].
      * intros records' [= <-] Hne. rewrite Hparse in Hne. cbn [fst] in Hne. contradiction.
    + replace (0 <? len (d :: sensorData)) with true
        by (symmetry; apply Z.ltb_lt; rewrite len_cons; pose proof (len_nonneg sensorData); lia).
      rewrite batchInsertSensorData_all_stored; [|discriminate|].
      * cbn [fst snd db calls ResultError ResultPath].
        repeat split; try reflexivity.
        -- eexists. split; [reflexivity|]. constructor; [reflexivity|].
           unfold duplicateSingles. apply Forall_map. apply Forall_forall.
           intros x _. reflexivity.
        -- intros records' [= <-] _. rewrite Hparse. reflexivity.
      * intros x Hx. cbn [db]. apply (Hall x eq_refl Hx).
Qed.

(** C4 (amended). Re-running over a store that already holds every reading
    of the files adds no record.  A file with at least one parsed reading
    gets a terminal insert error: the batch insert of its first chunk fails
    on the duplicate key, each record of that chunk is retried through the
    individual inserts and fails on its key, and the error of the fallback
    becomes the error of the file.  Every store call of the run fails with
    a duplicate key. *)
Theorem rerun_adds_nothing env files (st : State Store.T) :
  allStored env files (db st) ->
  let results := fst (processFilesParallel env files st) in
  let st' := snd (processFilesParallel env files st) in
  db st' = db st
  /\ map ResultPath results = map FilePath files
  /\ (forall result, In result results -> 0 < RecordCount result ->
        ResultError result = Some (ErrInsertData (ErrInsertAny DuplicateKey))
        /\ failed result = true)
  /\ (exists cs, calls st' = calls st ++ cs /\ Forall duplicateCall cs)
  /\ (forall job records (st0 : State Store.T),
        In job files -> db st0 = db st ->
        readCSV env (FilePath job) = Records records ->
        fst (fst (parseCSVRecords records (FileName job))) <> [] ->
        calls (snd (processCSVFile env job st0))
        = calls st0
          ++ BatchCall (chunkAt (fst (fst (parseCSVRecords records (FileName job)))) 0)
               (Some DuplicateKey)
          :: duplicateSingles
               (chunkAt (fst (fst (parseCSVRecords records (FileName job)))) 0)).
Proof.
  intros Hall. cbv zeta.
  assert (Hfiles : db (snd (processFilesParallel env files st)) = db st
    /\ map ResultPath (fst (processFilesParallel env files st)) = map FilePath files
    /\ (forall result, In result (fst (processFilesParallel env files st)) ->
          0 < RecordCount result ->
          ResultError result = Some (ErrInsertData (ErrInsertAny DuplicateKey))
          /\ failed result = true)
    /\ (exists cs, calls (snd (processFilesParallel env files st)) = calls st ++ cs
                   /\ Forall duplicateCall cs)).
  { revert st Hall. induction files as [|job rest IH]; intros st Hall.
    - cbn. repeat split; try reflexivity; try contradiction.
      exists []. rewrite app_nil_r. split; [reflexivity | constructor].
    - cbn [processFilesParallel]. unfold bind, ret.
      pose proof (processCSVFile_all_stored env job st) as Hone. cbv zeta in Hone.
      destruct Hone as (Hdb & Hpath & Herr & (cs1 & Hcs1 & Hdup1) & _).
      { intros records d Hread Hd. eapply Hall; [left; reflexivity | eassumption | exact Hd]. }
      destruct (processCSVFile env job st) as [result st1]. cbn [fst snd] in *.
      specialize (IH st1). destruct IH as (Hdb' & Hpaths & Herrs & (cs2 & Hcs2 & Hdup2)).
      { intros j records d Hj. rewrite Hdb. apply Hall. right. exact Hj. }
      destruct (processFilesParallel env rest st1) as [results st2]. cbn [fst snd] in *.
      split; [congruence|]. split; [cbn [map]; congruence|]. split.
      + intros r [<-|Hr] Hpos.
        * split; [auto|]. unfold failed. rewrite (Herr Hpos). reflexivity.
        * auto.
      + exists (cs1 ++ cs2). rewrite Hcs2, Hcs1, app_assoc. split; [reflexivity|].
        apply Forall_app. split; assumption. }
  destruct Hfiles as (H1 & H2 & H3 & H4).
  split; [exact H1|]. split; [exact H2|]. split; [exact H3|]. split; [exact H4|].
  intros job records st0 Hjob Hdb Hread Hne.
  pose proof (processCSVFile_all_stored env job st0) as Hone. cbv zeta in Hone.
  destruct Hone as (_ & _ & _ & _ & Hcalls).
  - intros records' d Hread' Hd. rewrite Hdb. eapply Hall; eassumption.
  - apply Hcalls; assumption.
Qed.

End Rerun.

(** * Properties of the directory scanner *)

Section DirectoryScanner.

Context {DB : Type} {persistence : Persistence DB}.

Local Opaque filepath.Join filepath.Ext strings.ToLower.

Lemma collectCSV_filter directoryPath entries : forall csvFiles,
  collectCSV directoryPath entries csvFiles
  = csvFiles ++ map (jobFor directoryPath) (filter isCSVEntry entries).
Proof.
  induction entries as [|entry rest IH]; intros csvFiles.
  - cbn. rewrite app_nil_r. reflexivity.
  - cbn [collectCSV filter]. unfold isCSVEntry at 1.
    destruct (IsDir entry); cbn [negb andb]; [apply IH|].
    destruct (String.eqb _ ".csv"); [|apply IH].
    rewrite IH, <- app_assoc. reflexivity.
Qed.

(** C7. [ScanDirectory] fails with the not-found error exactly when
    [os.Stat] reports that the path does not exist.  When the directory is
    listed, the jobs are the listed entries that are not directories and
    whose extension, lowercased, is ".csv", in the order of the listing;
    the listing of no other path matters; and without such an entry the job
    list is empty and the scan returns without error, without touching the
    store. *)
Theorem directory_scanner env env' workerCount directoryPath (st : State DB) entries :
  (fst (ScanDirectory env workerCount directoryPath st) = Some (ErrDirNotExist directoryPath)
   <-> IsNotExist (os_Stat env directoryPath) = true)
  /\ (os_ReadDir env directoryPath = inr entries ->
      findCSVFiles env directoryPath
        = inr (map (jobFor directoryPath) (filter isCSVEntry entries))
      /\ (forall job, In job (map (jobFor directoryPath) (filter isCSVEntry entries)) ->
            exists entry, In entry entries /\ IsDir entry = false
              /\ strings.ToLower (filepath.Ext (Name entry)) = ".csv"
              /\ job = jobFor directoryPath entry)
      /\ (IsNotExist (os_Stat env directoryPath) = false ->
          filter isCSVEntry entries = [] ->
          findCSVFiles env directoryPath = inr []
          /\ ScanDirectory env workerCount directoryPath st
             = (None, mkState (db st) (calls st)
                        (logged st ++ [LogScanning directoryPath] ++ [LogNoCSVFiles]))))
  /\ (os_ReadDir env directoryPath = os_ReadDir env' directoryPath ->
      findCSVFiles env directoryPath = findCSVFiles env' directoryPath).
Proof.
  split; [|split].
  - unfold ScanDirectory, bind, logf, ret.
    destruct (IsNotExist (os_Stat env directoryPath)); cbn [fst].
    + split; reflexivity.
    + split; [|discriminate]. intros H. exfalso.
      destruct (findCSVFiles env directoryPath) as [err|csvFiles]; cbn [fst] in H.
      * discriminate H.
      * destruct (len csvFiles =? 0); cbn [fst] in H; [discriminate H|].
        destruct (processFilesParallel env csvFiles _) as [results st1] in H.
        cbn [fst] in H. discriminate H.
  - intros Hlist.
    assert (Hfind : findCSVFiles env directoryPath
                    = inr (map (jobFor directoryPath) (filter isCSVEntry entries))).
    { unfold findCSVFiles. rewrite Hlist, collectCSV_filter. reflexivity. }
    split; [exact Hfind|]. split.
    + intros job Hjob. apply in_map_iff in Hjob. destruct Hjob as (entry & <- & Hentry).
      apply filter_In in Hentry. destruct Hentry as [Hin Hcsv].
      unfold isCSVEntry in Hcsv. apply andb_true_iff in Hcsv. destruct Hcsv as [Hdir Hext].
      exists entry. repeat split.
      * exact Hin.
      * destruct (IsDir entry); [discriminate Hdir | reflexivity].
      * apply String.eqb_eq. exact Hext.
    + intros Hexists Hnone. rewrite Hnone in Hfind. cbn [map] in Hfind.
      split; [exact Hfind|].
      unfold ScanDirectory, bind, logf, ret. rewrite Hexists, Hfind.
      cbn [db calls logged]. change (len (@nil FileJob) =? 0) with true. cbv iota.
      cbn [db calls logged]. rewrite <- app_assoc. reflexivity.
  - intros Hsame. unfold findCSVFiles. rewrite Hsame. reflexivity.
Qed.

End DirectoryScanner.

Lemma directory_scanner_witness :
  findCSVFiles (oneFileEnv goodRows) "dir" = inr [mkFileJob "dir/a.CSV" "a.CSV"].
Proof.
  destruct (directory_scanner (oneFileEnv goodRows) (oneFileEnv goodRows) 1 "dir" emptyStore
              [mkEntry "a.CSV" false; mkEntry "nested.csv" true; mkEntry "readme.txt" false])
    as (_ & Hlisted & _).
  destruct Hlisted as (Hfind & _); [vm_compute; reflexivity|].
  rewrite Hfind. vm_compute. reflexivity.
Defined.


(** * The scenarios on the store *)

Lemma repeated_readings_calls :
  calls (snd (batchInsertSensorData (repeatedReadings 1500) (mkState [readingAt 0] [] [])))
  = [] ++ [] ++ BatchCall (repeatedReadings 1000) (Some DuplicateKey)
       :: duplicateSingles (repeatedReadings 1000).
Proof. vm_compute. reflexivity. Qed.

Lemma failed_chunk_ends_insertion_witness :
  List.length (duplicateSingles (repeatedReadings 1000))
  = List.length (repeatedReadings 1000).
Proof.
  destruct (failed_chunk_ends_insertion (repeatedReadings 1500) (mkState [readingAt 0] [] [])
              [] (repeatedReadings 1000) DuplicateKey
              (duplicateSingles (repeatedReadings 1000)))
    as (k & _ & _ & _ & _ & Hlen & _ & _).
  - vm_compute. reflexivity.
  - exact repeated_readings_calls.
  - exact Hlen.
Defined.

Lemma first_run_store :
  db (snd (ScanDirectory (oneFileEnv goodRows) 1 "dir" emptyStore))
  = fst (fst (parseCSVRecords goodRows "a.CSV")).
Proof. vm_compute. reflexivity. Qed.

Lemma first_run_stored :
  allStored (oneFileEnv goodRows) [mkFileJob "dir/a.CSV" "a.CSV"]
            (db (snd (ScanDirectory (oneFileEnv goodRows) 1 "dir" emptyStore))).
Proof.
  rewrite first_run_store.
  assert (Hrows : readCSV (oneFileEnv goodRows) "dir/a.CSV" = Records goodRows)
    by (vm_compute; reflexivity).
  intros job records d [<-|[]] Hread Hd. cbn [FilePath FileName] in Hread, Hd.
  rewrite Hrows in Hread. injection Hread as <-.
  apply conflicts_In. exact Hd.
Qed.

Lemma rerun_adds_nothing_witness :
  db (snd (processFilesParallel (oneFileEnv goodRows) [mkFileJob "dir/a.CSV" "a.CSV"]
             (snd (ScanDirectory (oneFileEnv goodRows) 1 "dir" emptyStore))))
  = db (snd (ScanDirectory (oneFileEnv goodRows) 1 "dir" emptyStore)).
Proof.
  exact (proj1 (rerun_adds_nothing (oneFileEnv goodRows) [mkFileJob "dir/a.CSV" "a.CSV"]
                  (snd (ScanDirectory (oneFileEnv goodRows) 1 "dir" emptyStore))
                  first_run_stored)).
Defined.

(** C4 (as stated) fails: after a first run over the directory of the
    header-and-two-rows file, the second run adds no record, but the file
    is counted as failed, for no other reason than its duplicate keys. *)
Lemma rerun_counterexample :
  let first := snd (ScanDirectory (oneFileEnv goodRows) 1 "dir" emptyStore) in
  let rerun :=
    processFilesParallel (oneFileEnv goodRows) [mkFileJob "dir/a.CSV" "a.CSV"] first in
  ~ (db (snd rerun) = db first
     /\ failedFiles (summaryTotals (fst rerun)) = 0).
Proof.
  cbv zeta. intros [_ H]. vm_compute in H. discriminate H.
Qed.

(** * More on the record parser *)

Section RecordParserMore.

Local Opaque time.Parse strconv.ParseFloat strings.TrimSpace strings.ToLower strings.Contains.

(** The warning of a rejected row carries the 1-based index of the row. *)
Lemma parseRow_warningRow fileName i record w :
  parseRow fileName i record = RowRejected w -> warningRow w = i + 1.
Proof.
  unfold parseRow.
  destruct (_ || _); [discriminate|].
  destruct (len record <? 3); [intros [= <-]; reflexivity|].
  destruct (parseTimestamp _); [|intros [= <-]; reflexivity].
  destruct (String.eqb _ ""); [intros [= <-]; reflexivity|].
  destruct (strconv.ParseFloat _); [discriminate | intros [= <-]; reflexivity].
Qed.

(** An accepted row gives a reading with a name and a UTC timestamp. *)
Lemma parseRow_accepted fileName i record d :
  parseRow fileName i record = RowAccepted d ->
  SensorName d <> "" /\ time.loc (Timestamp d) = time.UTC.
Proof.
  unfold parseRow.
  destruct (_ || _); [discriminate|].
  destruct (len record <? 3); [discriminate|].
  destruct (parseTimestamp _); [|discriminate].
  destruct (String.eqb_spec (strings.TrimSpace (nth 1 record "")) ""); [discriminate|].
  destruct (strconv.ParseFloat _); [|discriminate].
  intros [= <-]. split; [assumption | reflexivity].
Qed.

Lemma parseRows_accounting fileName rows : forall i sensorData errorCount warnings,
  exists d' w',
    parseRows fileName i rows sensorData errorCount warnings
      = (sensorData ++ d', errorCount + len w', warnings ++ w')
    /\ len d' + len w' <= len rows
    /\ Forall (fun d => SensorName d <> "" /\ time.loc (Timestamp d) = time.UTC) d'
    /\ Forall (fun w => i < warningRow w <= i + len rows) w'
    /\ StronglySorted Z.lt (map warningRow w').
Proof.
  induction rows as [|record rest IH]; intros i sensorData errorCount warnings.
  - exists [], []. cbn. rewrite !app_nil_r, Z.add_0_r.
    repeat split; try constructor. unfold len; simpl; lia.
  - cbn [parseRows]. destruct (parseRow fileName i record) as [|w0|d0] eqn:Hrow.
    + destruct (IH (i + 1) sensorData errorCount warnings)
        as (d' & w' & -> & Hle & Hd & Hw & Hs).
      exists d', w'. rewrite len_cons. repeat split; try assumption; try lia.
      eapply Forall_impl; [|exact Hw]. cbv beta. intros; lia.
    + destruct (IH (i + 1) sensorData (errorCount + 1) (warnings ++ [w0]))
        as (d' & w' & -> & Hle & Hd & Hw & Hs).
      apply parseRow_warningRow in Hrow.
      exists d', (w0 :: w'). rewrite <- app_assoc, !len_cons. cbn [app map].
      split; [f_equal; f_equal; lia|]. split; [lia|]. split; [exact Hd|]. split.
      * constructor; [pose proof (len_nonneg rest); lia|].
        eapply Forall_impl; [|exact Hw]. cbv beta. intros; lia.
      * constructor; [exact Hs|]. apply Forall_map.
        eapply Forall_impl; [|exact Hw]. cbv beta. intros; lia.
    + destruct (IH (i + 1) (sensorData ++ [d0]) errorCount warnings)
        as (d' & w' & -> & Hle & Hd & Hw & Hs).
      apply parseRow_accepted in Hrow.
      exists (d0 :: d'), w'. rewrite <- app_assoc, !len_cons. cbn [app].
      split; [reflexivity|]. split; [lia|]. split; [constructor; assumption|]. split.
      * eapply Forall_impl; [|exact Hw]. cbv beta. intros; lia.
      * exact Hs.
Qed.

(** X1. The error count of [parseCSVRecords] is the number of warnings it
    logs; readings and errors together never exceed the rows of the file;
    the warnings carry 1-based row numbers within the file, in increasing
    order. *)
Theorem parse_accounting records fileName :
  let '(sensorData, errorCount, warnings) := parseCSVRecords records fileName in
  errorCount = len warnings
  /\ len sensorData + errorCount <= len records
  /\ Forall (fun w => 1 <= warningRow w <= len records) warnings
  /\ StronglySorted Z.lt (map warningRow warnings).
Proof.
  destruct records as [|first rest].
  - cbn. repeat split; try constructor. unfold len; simpl; lia.
  - rewrite parseCSVRecords_first. destruct (isHeaderRow first).
    + destruct (parseRows_accounting fileName rest 1 [] 0 [])
        as (d' & w' & -> & Hle & _ & Hw & Hs).
      cbn [app]. rewrite len_cons. repeat split; try assumption; try lia.
      eapply Forall_impl; [|exact Hw]. cbv beta. intros; lia.
    + destruct (parseRows_accounting fileName (first :: rest) 0 [] 0 [])
        as (d' & w' & -> & Hle & _ & Hw & Hs).
      cbn [app]. repeat split; try assumption; try lia.
      eapply Forall_impl; [|exact Hw]. cbv beta. intros; lia.
Qed.

(** X2. Every reading [parseCSVRecords] emits has a non-empty sensor name
    and a timestamp presented in UTC. *)
Theorem readings_well_formed records fileName :
  Forall (fun d => SensorName d <> "" /\ time.loc (Timestamp d) = time.UTC)
         (fst (fst (parseCSVRecords records fileName))).
Proof.
  destruct records as [|first rest]; [constructor|].
  rewrite parseCSVRecords_first. destruct (isHeaderRow first).
  - destruct (parseRows_accounting fileName rest 1 [] 0 []) as (d' & w' & -> & _ & Hd & _).
    exact Hd.
  - destruct (parseRows_accounting fileName (first :: rest) 0 [] 0 [])
      as (d' & w' & -> & _ & Hd & _).
    exact Hd.
Qed.

Lemma parseRow_blank fileName i record :
  parseRow fileName i record = RowSkipped <-> isBlankRow record = true.
Proof.
  unfold parseRow, isBlankRow.
  destruct (_ || _); [split; reflexivity|].
  split; [|discriminate].
  destruct (len record <? 3); [discriminate|].
  destruct (parseTimestamp _); [|discriminate].
  destruct (String.eqb _ ""); [discriminate|].
  destruct (strconv.ParseFloat _); discriminate.
Qed.

(** The row index only shows in the row number of the warning. *)
Lemma parseRow_index fileName i j record :
  match parseRow fileName i record, parseRow fileName j record with
  | RowSkipped, RowSkipped => True
  | RowRejected _, RowRejected _ => True
  | RowAccepted d, RowAccepted d' => d = d'
  | _, _ => False
  end.
Proof.
  unfold parseRow.
  destruct (_ || _); [exact I|].
  destruct (len record <? 3); [exact I|].
  destruct (parseTimestamp _); [|exact I].
  destruct (String.eqb _ ""); [exact I|].
  destruct (strconv.ParseFloat _); [reflexivity | exact I].
Qed.

Lemma parseRows_without_blank fileName rows :
  forall i j sensorData errorCount warnings warnings',
  fst (parseRows fileName i rows sensorData errorCount warnings)
  = fst (parseRows fileName j (filter (fun r => negb (isBlankRow r)) rows)
           sensorData errorCount warnings').
Proof.
  induction rows as [|record rest IH]; intros i j sensorData errorCount warnings warnings'.
  - reflexivity.
  - cbn [filter parseRows].
    destruct (isBlankRow record) eqn:Hblank; cbn [negb].
    + apply (parseRow_blank fileName i) in Hblank. rewrite Hblank. apply IH.
    + cbn [parseRows]. pose proof (parseRow_index fileName i j record) as Hidx.
      assert (Hi : parseRow fileName i record <> RowSkipped)
        by (rewrite parseRow_blank, Hblank; discriminate).
      destruct (parseRow fileName i record) as [|w|d], (parseRow fileName j record) as [|w'|d'];
        try contradiction; try (subst d'); apply IH.
Qed.

(** X3. Blank rows (no cell, or a single cell that is blank after
    trimming) after the first row change neither the readings nor the error
    count of a file: the result is that of the file without them. *)
Theorem blank_rows_ignored first rest fileName :
  fst (parseCSVRecords (first :: rest) fileName)
  = fst (parseCSVRecords (first :: filter (fun r => negb (isBlankRow r)) rest) fileName).
Proof.
  rewrite !parseCSVRecords_first. destruct (isHeaderRow first).
  - apply parseRows_without_blank.
  - cbn [parseRows]. pose proof (parseRow_index fileName 0 0 first).
    destruct (parseRow fileName 0 first); apply parseRows_without_blank.
Qed.

Lemma nth_firstn_3 (record : list string) k :
  (k < 3)%nat -> nth k (firstn 3 record) "" = nth k record "".
Proof.
  intros Hk. destruct record as [|a [|b [|c r]]]; try reflexivity.
  destruct k as [|[|[|k]]]; try reflexivity. lia.
Qed.

Lemma len_firstn_3 (record : list string) :
  len (firstn 3 record) = Z.min 3 (len record).
Proof. unfold len. rewrite length_firstn. lia. Qed.

Lemma parseRow_firstn_3 fileName i record :
  parseRow fileName i (firstn 3 record) = parseRow fileName i record.
Proof.
  unfold parseRow. rewrite !nth_firstn_3 by lia. rewrite len_firstn_3.
  destruct (Z.lt_ge_cases (len record) 3) as [H|H].
  - rewrite Z.min_r by lia. reflexivity.
  - rewrite Z.min_l by lia.
    replace (len record =? 0) with false by (symmetry; apply Z.eqb_neq; lia).
    replace (len record =? 1) with false by (symmetry; apply Z.eqb_neq; lia).
    replace (len record <? 3) with false by (symmetry; apply Z.ltb_ge; lia).
    reflexivity.
Qed.

Lemma isHeaderRow_firstn_3 row : isHeaderRow (firstn 3 row) = isHeaderRow row.
Proof.
  unfold isHeaderRow. rewrite nth_firstn_3 by lia. rewrite len_firstn_3.
  destruct (Z.lt_ge_cases (len row) 3) as [H|H].
  - rewrite Z.min_r by lia. reflexivity.
  - rewrite Z.min_l by lia.
    replace (len row <? 3) with false by (symmetry; apply Z.ltb_ge; lia). reflexivity.
Qed.

Lemma parseRows_firstn_3 fileName rows : forall i sensorData errorCount warnings,
  parseRows fileName i (map (firstn 3) rows) sensorData errorCount warnings
  = parseRows fileName i rows sensorData errorCount warnings.
Proof.
  induction rows as [|record rest IH]; intros; [reflexivity|].
  cbn [map parseRows]. rewrite parseRow_firstn_3.
  destruct (parseRow fileName i record); apply IH.
Qed.

(** X4. Columns after the third are ignored: a file gives the same
    readings, error count and warnings as the file with every row cut to
    its first three columns. *)
Theorem extra_columns_ignored records fileName :
  parseCSVRecords (map (firstn 3) records) fileName = parseCSVRecords records fileName.
Proof.
  destruct records as [|first rest]; [reflexivity|].
  cbn [map]. rewrite !parseCSVRecords_first, isHeaderRow_firstn_3.
  destruct (isHeaderRow first).
  - apply parseRows_firstn_3.
  - apply (parseRows_firstn_3 fileName (first :: rest)).
Qed.

End RecordParserMore.

(** * What parses as RFC 3339, and the header heuristic *)

Section HeaderHeuristic.

Lemma substring_all s : String.substring 0 (String.length s) s = s.
Proof. induction s as [|c s IH]; [reflexivity|]. cbn. rewrite IH. reflexivity. Qed.

Lemma drop_0 s : time.drop 0 s = s.
Proof. unfold time.drop. rewrite Nat.sub_0_r. apply substring_all. Qed.

Lemma drop_S n c s : time.drop (S n) (String c s) = time.drop n s.
Proof. reflexivity. Qed.

Lemma digit_is_rfc3339Byte c : isDigitByte c = true -> rfc3339Byte c = true.
Proof. intros H. unfold rfc3339Byte. rewrite H. reflexivity. Qed.

Lemma digits_from_bytes s : forall acc y,
  time.digits_from acc s = Some y -> allBytes rfc3339Byte s = true.
Proof.
  induction s as [|c s IH]; intros acc y H; [reflexivity|].
  cbn in H. destruct (isDigitByte c) eqn:Hc; [|discriminate].
  change (isDigitByte c) with (in_range "0" "9" c) in Hc.
  cbn [allBytes]. rewrite (digit_is_rfc3339Byte c Hc). exact (IH _ _ H).
Qed.

Lemma getnum_bytes v fixed n v' :
  time.getnum v fixed = Some (n, v') ->
  allBytes rfc3339Byte v' = true -> allBytes rfc3339Byte v = true.
Proof.
  unfold time.getnum. destruct v as [|a v1]; [discriminate|].
  destruct (isDigitByte a) eqn:Ha; [|discriminate].
  destruct v1 as [|b v2].
  - destruct (negb fixed); [|discriminate]. intros [= <- <-] _.
    cbn [allBytes]. rewrite (digit_is_rfc3339Byte a Ha). reflexivity.
  - destruct (isDigitByte b) eqn:Hb.
    + intros [= <- <-] H. cbn [allBytes].
      rewrite (digit_is_rfc3339Byte a Ha), (digit_is_rfc3339Byte b Hb). exact H.
    + destruct (negb fixed); [|discriminate]. intros [= <- <-] H.
      cbn [allBytes]. rewrite (digit_is_rfc3339Byte a Ha). exact H.
Qed.

Lemma drop_digit_run v :
  allBytes rfc3339Byte (time.drop (time.digit_run v) v) = true ->
  allBytes rfc3339Byte v = true.
Proof.
  induction v as [|c v IH]; [reflexivity|].
  cbn [time.digit_run]. destruct (isDigitByte c) eqn:Hc.
  - rewrite drop_S. intros H. cbn [allBytes].
    rewrite (digit_is_rfc3339Byte c Hc). exact (IH H).
  - rewrite drop_0. trivial.
Qed.

(** The literal of a layout that is one byte other than a space. *)
Lemma lit_bytes p f v f' v' :
  Ascii.eqb p " " = false -> rfc3339Byte p = true ->
  time.parse_chunk (time.lit (String p EmptyString)) f v = Some (f', v') ->
  allBytes rfc3339Byte v' = true -> allBytes rfc3339Byte v = true.
Proof.
  intros Hsp Hp. unfold time.parse_chunk, time.skip. cbn [time.skip_from]. rewrite Hsp.
  destruct v as [|c v1]; [discriminate|].
  destruct (Ascii.eqb_spec c p) as [->|]; [|discriminate].
  intros [= _ <-] H. cbn [allBytes]. rewrite Hp. exact H.
Qed.

Lemma year_bytes f v f' v' :
  time.parse_chunk time.stdLongYear f v = Some (f', v') ->
  allBytes rfc3339Byte v' = true -> allBytes rfc3339Byte v = true.
Proof.
  unfold time.parse_chunk.
  destruct v as [|a [|b [|c [|d rest]]]]; try discriminate.
  destruct (_ && _); [|discriminate].
  destruct (time.digits_from 0 _) as [y|] eqn:Hy; [|discriminate].
  intros [= _ <-] H. cbn [String.substring] in Hy. rewrite !drop_S, drop_0 in H.
  apply digits_from_bytes in Hy. cbn [allBytes] in Hy |- *.
  apply andb_true_iff in Hy. destruct Hy as [-> Hy].
  apply andb_true_iff in Hy. destruct Hy as [-> Hy].
  apply andb_true_iff in Hy. destruct Hy as [-> Hy].
  apply andb_true_iff in Hy. destruct Hy as [-> _].
  exact H.
Qed.

Lemma month_bytes f v f' v' :
  time.parse_chunk time.stdZeroMonth f v = Some (f', v') ->
  allBytes rfc3339Byte v' = true -> allBytes rfc3339Byte v = true.
Proof.
  unfold time.parse_chunk. destruct (time.getnum v true) as [[n r]|] eqn:Hn; [|discriminate].
  destruct (negb _); [|discriminate]. intros [= _ <-]. exact (getnum_bytes _ _ _ _ Hn).
Qed.

Lemma day_bytes f v f' v' :
  time.parse_chunk time.stdZeroDay f v = Some (f', v') ->
  allBytes rfc3339Byte v' = true -> allBytes rfc3339Byte v = true.
Proof.
  unfold time.parse_chunk. destruct (time.getnum v true) as [[n r]|] eqn:Hn; [|discriminate].
  intros [= _ <-]. exact (getnum_bytes _ _ _ _ Hn).
Qed.

Lemma hour_bytes f v f' v' :
  time.parse_chunk time.stdHour f v = Some (f', v') ->
  allBytes rfc3339Byte v' = true -> allBytes rfc3339Byte v = true.
Proof.
  unfold time.parse_chunk. destruct (time.getnum v false) as [[n r]|] eqn:Hn; [|discriminate].
  destruct (negb _); [|discriminate]. intros [= _ <-]. exact (getnum_bytes _ _ _ _ Hn).
Qed.

Lemma minute_bytes f v f' v' :
  time.parse_chunk time.stdZeroMinute f v = Some (f', v') ->
  allBytes rfc3339Byte v' = true -> allBytes rfc3339Byte v = true.
Proof.
  unfold time.parse_chunk. destruct (time.getnum v true) as [[n r]|] eqn:Hn; [|discriminate].
  destruct (negb _); [|discriminate]. intros [= _ <-]. exact (getnum_bytes _ _ _ _ Hn).
Qed.

Lemma commaOrPeriod_rfc3339Byte c : time.commaOrPeriod c = true -> rfc3339Byte c = true.
Proof.
  unfold time.commaOrPeriod, rfc3339Byte. intros H.
  apply orb_true_iff in H. destruct H as [-> | ->]; rewrite ?orb_true_r; reflexivity.
Qed.

Lemma second_bytes f v f' v' :
  time.parse_chunk time.stdZeroSecond f v = Some (f', v') ->
  allBytes rfc3339Byte v' = true -> allBytes rfc3339Byte v = true.
Proof.
  unfold time.parse_chunk. destruct (time.getnum v true) as [[n r]|] eqn:Hn; [|discriminate].
  destruct (negb _); [|discriminate].
  destruct r as [|c0 r1].
  - intros [= _ <-]. exact (getnum_bytes _ _ _ _ Hn).
  - destruct (time.commaOrPeriod c0 && time.isDigit (String c0 r1) 1) eqn:Hfrac.
    + destruct (time.parseNanoseconds _ _); [|discriminate].
      intros [= _ <-] H. rewrite drop_S in H. apply drop_digit_run in H.
      apply (getnum_bytes _ _ _ _ Hn). cbn [allBytes].
      apply andb_true_iff in Hfrac. destruct Hfrac as [Hc _].
      rewrite (commaOrPeriod_rfc3339Byte c0 Hc). exact H.
    + intros [= _ <-]. exact (getnum_bytes _ _ _ _ Hn).
Qed.

Lemma substring_0_0 s : String.substring 0 0 s = EmptyString.
Proof. destruct s; reflexivity. Qed.

Ltac zone_guards :=
  repeat match goal with
         | |- (if ?b then _ else _) = Some _ -> _ => destruct b eqn:?; [|discriminate]
         | |- match ?o with Some _ => _ | None => _ end = Some _ -> _ =>
             destruct o as [[? ?]|] eqn:?; [|discriminate]
         end.

Ltac zone_numeric :=
  match goal with
  | |- context [String ?s ?v0] =>
      destruct v0 as [|d1 [|d2 [|d3 [|d4 [|d5 rest]]]]];
      cbn [String.length Nat.leb String.get String.substring]; try discriminate;
      rewrite ?substring_0_0;
      zone_guards;
      intros [= _ <-] H; rewrite !drop_S, drop_0 in H;
      repeat match goal with
             | Hn : time.getnum (String ?a (String ?b EmptyString)) true = Some _ |- _ =>
                 unfold time.getnum in Hn;
                 destruct (isDigitByte a) eqn:?; [|discriminate Hn];
                 destruct (isDigitByte b) eqn:?; [|discriminate Hn];
                 clear Hn
             end;
      match goal with
      | Hc : Ascii.eqb d3 ":" = true |- _ => apply Ascii.eqb_eq in Hc; subst d3
      end;
      cbn [allBytes];
      rewrite (digit_is_rfc3339Byte d1), (digit_is_rfc3339Byte d2),
        (digit_is_rfc3339Byte d4), (digit_is_rfc3339Byte d5), H by assumption;
      reflexivity
  end.

Lemma zone_bytes f v f' v' :
  time.parse_chunk time.stdISO8601ColonTZ f v = Some (f', v') ->
  allBytes rfc3339Byte v' = true -> allBytes rfc3339Byte v = true.
Proof.
  unfold time.parse_chunk. destruct v as [|s0 v0]; [discriminate|].
  destruct (Ascii.eqb_spec s0 "Z") as [->|HZ].
  { intros [= _ <-] H. cbn [allBytes]. exact H. }
  destruct (Ascii.eqb_spec s0 "+") as [->|HP]; [zone_numeric|].
  destruct (Ascii.eqb_spec s0 "-") as [->|HM]; [zone_numeric|].
  destruct s0 as [[] [] [] [] [] [] [] []];
    try (exfalso; apply HZ; reflexivity);
    try (exfalso; apply HP; reflexivity);
    try (exfalso; apply HM; reflexivity);
    cbn [String.get]; zone_guards; discriminate.
Qed.

Lemma parse_chunks_bytes layout :
  Forall (fun c => forall f v f' v',
            time.parse_chunk c f v = Some (f', v') ->
            allBytes rfc3339Byte v' = true -> allBytes rfc3339Byte v = true) layout ->
  forall f v f', time.parse_chunks layout f v = Some f' -> allBytes rfc3339Byte v = true.
Proof.
  induction 1 as [|c layout Hc _ IH]; intros f v f'.
  - cbn. destruct v; [reflexivity | discriminate].
  - cbn [time.parse_chunks].
    destruct (time.parse_chunk c f v) as [[f1 v1]|] eqn:Hchunk; [|discriminate].
    intros Hrest. exact (Hc _ _ _ _ Hchunk (IH _ _ _ Hrest)).
Qed.

(** A string that parses as RFC 3339 is made of digits and the bytes
    [-], [T], [:], [.], [,], [Z] and [+]. *)
Lemma rfc3339_bytes s t :
  time.Parse time.RFC3339 s = Some t -> allBytes rfc3339Byte s = true.
Proof.
  unfold time.Parse.
  destruct (time.parse_chunks time.RFC3339 time.fields0 s) as [f|] eqn:Hf; [|discriminate].
  intros _. revert Hf. apply parse_chunks_bytes.
  unfold time.RFC3339.
  repeat (constructor;
          [first [ exact year_bytes | exact month_bytes | exact day_bytes
                 | exact hour_bytes | exact minute_bytes | exact second_bytes
                 | exact zone_bytes
                 | intros f0 v0 f0' v0'; apply lit_bytes; reflexivity ]|]).
  constructor.
Qed.

Lemma prefix_hasByte w : forall s c,
  String.prefix w s = true -> hasByte c w = true -> hasByte c s = true.
Proof.
  induction w as [|a w IH]; intros s c Hp Hc; [discriminate Hc|].
  destruct s as [|b s]; [discriminate Hp|].
  cbn [String.prefix] in Hp. destruct (ascii_dec a b) as [->|]; [|discriminate Hp].
  cbn [hasByte] in Hc |- *. destruct (Ascii.eqb b c); [reflexivity|].
  cbn [orb] in Hc |- *. exact (IH _ _ Hp Hc).
Qed.

Lemma Contains_hasByte s : forall w c,
  strings.Contains s w = true -> hasByte c w = true -> hasByte c s = true.
Proof.
  induction s as [|a s IH]; intros w c Hs Hc.
  - cbn [strings.Contains] in Hs.
    destruct (String.prefix w EmptyString) eqn:Hp; [|discriminate Hs].
    exact (prefix_hasByte _ _ _ Hp Hc).
  - cbn [strings.Contains] in Hs.
    destruct (String.prefix w (String a s)) eqn:Hp.
    + exact (prefix_hasByte _ _ _ Hp Hc).
    + cbn [hasByte]. rewrite (IH _ _ Hs Hc). apply orb_true_r.
Qed.

Lemma hasByte_ToLower s c :
  hasByte c (strings.ToLower s) = true ->
  exists c0, hasByte c0 s = true /\ strings.lower_byte c0 = c.
Proof.
  induction s as [|a s IH]; [discriminate|].
  cbn [strings.ToLower hasByte]. intros H. apply orb_true_iff in H. destruct H as [H|H].
  - exists a. apply Ascii.eqb_eq in H. rewrite Ascii.eqb_refl. split; [reflexivity | exact H].
  - destruct (IH H) as (c0 & Hc0 & Hl). exists c0.
    split; [cbn [hasByte]; rewrite Hc0; apply orb_true_r | exact Hl].
Qed.

Lemma allBytes_hasByte p s c :
  allBytes p s = true -> hasByte c s = true -> p c = true.
Proof.
  induction s as [|a s IH]; [discriminate 2|].
  cbn [allBytes hasByte]. intros Hall Hc.
  apply andb_true_iff in Hall. destruct Hall as [Ha Hall].
  apply orb_true_iff in Hc. destruct Hc as [Hc|Hc]; [|exact (IH Hall Hc)].
  apply Ascii.eqb_eq in Hc. subst a. exact Ha.
Qed.

(** No byte of an RFC 3339 string lowers to [i] or [a]. *)
Lemma lower_byte_not_rfc3339 c0 :
  strings.lower_byte c0 = "i"%char \/ strings.lower_byte c0 = "a"%char ->
  rfc3339Byte c0 = false.
Proof.
  destruct c0 as [[] [] [] [] [] [] [] []]; vm_compute;
    intros [H|H]; try reflexivity; discriminate H.
Qed.

(** A first column that parses as RFC 3339 holds none of the header
    words. *)
Lemma rfc3339_no_header_word s t :
  time.Parse time.RFC3339 s = Some t ->
  existsb (fun word => strings.Contains (strings.ToLower s) word) headerWords = false.
Proof.
  intros Hparse. apply rfc3339_bytes in Hparse.
  assert (Hno : forall w c, hasByte c w = true -> (c = "i" \/ c = "a")%char ->
                            strings.Contains (strings.ToLower s) w = false).
  { intros w c Hw Hc. destruct (strings.Contains (strings.ToLower s) w) eqn:Hs; [|reflexivity].
    destruct (hasByte_ToLower s c (Contains_hasByte _ _ _ Hs Hw)) as (c0 & Hc0 & Hl).
    pose proof (allBytes_hasByte _ _ _ Hparse Hc0) as Hok.
    rewrite (lower_byte_not_rfc3339 c0) in Hok; [discriminate Hok|].
    rewrite Hl. exact Hc. }
  unfold headerWords. cbn [existsb].
  rewrite (Hno "timestamp" "i"%char), (Hno "time" "i"%char), (Hno "date" "a"%char),
    (Hno "datetime" "i"%char); auto.
Qed.

(** X5. The header words never decide: a row is a header exactly when it
    has at least three columns and its trimmed first column fails to parse
    as RFC 3339.  So a first row that starts with an RFC 3339 timestamp is
    always processed as data. *)
Theorem header_decided_by_rfc3339 row first rest fileName t :
  (isHeaderRow row = true <->
   3 <= len row /\ time.Parse time.RFC3339 (strings.TrimSpace (nth 0 row "")) = None)
  /\ (time.Parse time.RFC3339 (strings.TrimSpace (nth 0 first "")) = Some t ->
      isHeaderRow first = false
      /\ parseCSVRecords (first :: rest) fileName
         = parseRows fileName 0 (first :: rest) [] 0 []).
Proof.
  assert (Hhdr : forall r, isHeaderRow r =
                   (3 <=? len r)
                   && match time.Parse time.RFC3339 (strings.TrimSpace (nth 0 r "")) with
                      | Some _ => false
                      | None => true
                      end).
  { intros r. rewrite isHeaderRow_spec. unfold looksLikeHeader.
    destruct (time.Parse time.RFC3339 (strings.TrimSpace (nth 0 r ""))) as [t0|] eqn:Hp.
    - rewrite (rfc3339_no_header_word _ _ Hp). reflexivity.
    - rewrite orb_true_r. reflexivity. }
  split.
  - rewrite Hhdr, andb_true_iff, Z.leb_le.
    destruct (time.Parse time.RFC3339 _); split; intros [H1 H2];
      (split; [exact H1|]); congruence.
  - intros Hp.
    assert (Hfirst : isHeaderRow first = false).
    { rewrite Hhdr, Hp. apply andb_false_r. }
    split; [exact Hfirst|]. rewrite parseCSVRecords_first, Hfirst. reflexivity.
Qed.

Lemma header_decided_by_rfc3339_witness :
  parseCSVRecords [["2025-09-05T08:00:00Z"; "temp_01"; "21.8"]] "a.csv"
  = parseRows "a.csv" 0 [["2025-09-05T08:00:00Z"; "temp_01"; "21.8"]] [] 0 [].
Proof.
  destruct (header_decided_by_rfc3339 [] ["2025-09-05T08:00:00Z"; "temp_01"; "21.8"] []
              "a.csv" (time.mkTime 1757059200 0 time.UTC)) as (_ & H).
  apply H. vm_compute. reflexivity.
Defined.

End HeaderHeuristic.

(** * More on the file processor and the persistence routines *)

Section PersistenceMore.

Context {DB : Type} {persistence : Persistence DB}.

Lemma fallbackOutcome_cases cs :
  fallbackOutcome cs = None \/ exists e, fallbackOutcome cs = Some (ErrInsertAny e).
Proof.
  unfold fallbackOutcome. destruct (lastErrorOf cs None) as [e|]; [|left; reflexivity].
  destruct (successes cs =? 0); [right; eauto | left; reflexivity].
Qed.

Lemma BatchTrace_result data i t r :
  BatchTrace data i t r -> r = None \/ exists e, r = Some (ErrInsertAny e).
Proof.
  induction 1; [left; reflexivity | assumption | apply fallbackOutcome_cases].
Qed.

(** The only error [batchInsertSensorData] returns is the one of the
    fallback. *)
Lemma batchInsertSensorData_result data (st : State DB) :
  fst (batchInsertSensorData data st) = None
  \/ exists e, fst (batchInsertSensorData data st) = Some (ErrInsertAny e).
Proof.
  unfold batchInsertSensorData.
  destruct (batchInsertFrom_trace data (List.length data) 0 st) as (t & _ & Htrace).
  { unfold len. lia. }
  exact (BatchTrace_result _ _ _ _ Htrace).
Qed.

(** X6. For a file with rows, RecordCount is the number of rows that
    parsed and ErrorCount the number of rows the parser rejected, whatever
    the store does with the readings; the result carries the path of the
    job, and its only possible error is the insert error of the fallback. *)
Theorem counts_are_parse_counts env job (st : State DB) records :
  readCSV env (FilePath job) = Records records ->
  records <> [] ->
  let result := fst (processCSVFile env job st) in
  RecordCount result = len (fst (fst (parseCSVRecords records (FileName job))))
  /\ ErrorCount result = snd (fst (parseCSVRecords records (FileName job)))
  /\ ResultPath result = FilePath job
  /\ (ResultError result = None
      \/ exists e, ResultError result = Some (ErrInsertData (ErrInsertAny e))).
Proof.
  intros Hread Hne. cbv zeta. unfold processCSVFile, bind, logf, logAll, ret. rewrite Hread.
  replace (len records =? 0) with false.
  2:{ symmetry. apply Z.eqb_neq. destruct records; [contradiction|].
      rewrite len_cons. pose proof (len_nonneg records). lia. }
  destruct (parseCSVRecords records (FileName job)) as [[sensorData errorCount] warnings].
  cbn [fst snd].
  destruct (0 <? len sensorData).
  - match goal with
    | |- context [batchInsertSensorData sensorData ?s] =>
        pose proof (batchInsertSensorData_result sensorData s) as Hres;
        destruct (batchInsertSensorData sensorData s) as [err st1]
    end.
    cbn [fst] in Hres. destruct Hres as [-> | [e ->]]; cbn [fst RecordCount ErrorCount
      ResultPath ResultError]; repeat split; eauto.
  - cbn [fst RecordCount ErrorCount ResultPath ResultError]. repeat split. left; reflexivity.
Qed.

(** X7. A file that cannot be opened or read, or whose rows give no
    reading, never reaches the store: no call is made and the store is
    unchanged; the result has RecordCount 0, and it has a terminal error
    exactly when the file could not be read or had no row. *)
Theorem file_without_readings env job (st : State DB) :
  (forall records, readCSV env (FilePath job) = Records records ->
                   fst (fst (parseCSVRecords records (FileName job))) = []) ->
  let result := fst (processCSVFile env job st) in
  let st' := snd (processCSVFile env job st) in
  db st' = db st /\ calls st' = calls st
  /\ RecordCount result = 0
  /\ ResultError result
     = match readCSV env (FilePath job) with
       | OpenFailed err => Some (ErrOpenFile err)
       | ReadFailed err => Some (ErrReadCSV err)
       | Records [] => Some ErrEmptyCSV
       | Records (_ :: _) => None
       end.
Proof.
  intros Hnone. cbv zeta. unfold processCSVFile, bind, logf, logAll, ret.
  destruct (readCSV env (FilePath job)) as [err|err|records]; cbn [fst snd db calls];
    try (repeat split; reflexivity).
  specialize (Hnone records eq_refl).
  destruct records as [|first rest]; [repeat split; reflexivity|].
  replace (len (first :: rest) =? 0) with false
    by (symmetry; apply Z.eqb_neq; rewrite len_cons; pose proof (len_nonneg rest); lia).
  destruct (parseCSVRecords (first :: rest) (FileName job))
    as [[sensorData errorCount] warnings].
  cbn [fst] in Hnone. subst sensorData.
  change (0 <? len (@nil SensorData)) with false. cbv iota.
  cbn [fst snd db calls RecordCount ResultError]. repeat split; reflexivity.
Qed.

Lemma skipn_chunk (data : list SensorData) i :
  0 <= i ->
  chunkAt data i ++ skipn (Z.to_nat (i + batchSize)) data = skipn (Z.to_nat i) data.
Proof.
  intros Hi. unfold chunkAt, slice.
  replace (Z.to_nat (i + batchSize)) with (Z.to_nat batchSize + Z.to_nat i)%nat
    by (unfold batchSize; lia).
  rewrite <- skipn_skipn.
  destruct (Z.le_gt_cases (i + batchSize) (len data)) as [Hle|Hgt].
  - rewrite Z.min_r by lia.
    replace (Z.to_nat (i + batchSize - i)) with (Z.to_nat batchSize) by lia.
    apply firstn_skipn.
  - rewrite Z.min_l by lia.
    rewrite (skipn_all2 (n := Z.to_nat batchSize)).
    + rewrite app_nil_r. apply firstn_all2. rewrite length_skipn. unfold len in *. lia.
    + rewrite length_skipn. unfold len in *. lia.
Qed.

Lemma len_chunkAt (data : list SensorData) i :
  0 <= i -> i < len data -> 1 <= len (chunkAt data i) <= batchSize.
Proof.
  intros H0 Hi. unfold chunkAt, slice, len in *. rewrite length_firstn, length_skipn.
  unfold batchSize. lia.
Qed.

Lemma BatchTrace_all_ok data i t r :
  BatchTrace data i t r -> 0 <= i ->
  Forall (fun c => callError c = None) t ->
  concat (map callRecords t) = skipn (Z.to_nat i) data
  /\ Forall (fun c => exists b, c = BatchCall b None /\ 1 <= len b <= batchSize) t
  /\ r = None.
Proof.
  induction 1 as [i Hi|i t r Hi Htrace IH|i e cs Hi Hsingle]; intros H0 Hok.
  - cbn. rewrite skipn_all2 by (unfold len in Hi; lia). repeat split. constructor.
  - apply Forall_inv_tail in Hok.
    destruct IH as (Hcat & Hshape & Hr); [unfold batchSize; lia | exact Hok |].
    cbn [map concat callRecords]. rewrite Hcat, skipn_chunk by assumption.
    repeat split; [|exact Hr].
    constructor; [|exact Hshape]. eexists. split; [reflexivity|].
    apply len_chunkAt; assumption.
  - apply Forall_inv in Hok. discriminate Hok.
Qed.

(** X8. When no store call of [batchInsertSensorData] fails, the calls are
    batch inserts only, each of 1 to 1000 records, and put end to end they
    are the data: every reading is sent exactly once, in order, and the
    routine returns no error. *)
Theorem batches_cover_data data (st : State DB) cs :
  calls (snd (batchInsertSensorData data st)) = calls st ++ cs ->
  Forall (fun c => callError c = None) cs ->
  concat (map callRecords cs) = data
  /\ Forall (fun c => exists b, c = BatchCall b None /\ 1 <= len b <= batchSize) cs
  /\ fst (batchInsertSensorData data st) = None.
Proof.
  intros Hcalls Hok. unfold batchInsertSensorData in *.
  destruct (batchInsertFrom_trace data (List.length data) 0 st) as (t & Ht & Htrace).
  { unfold len. lia. }
  rewrite Ht in Hcalls. apply app_inv_head in Hcalls. subst t.
  destruct (BatchTrace_all_ok _ _ _ _ Htrace ltac:(lia) Hok) as (Hcat & Hshape & Hr).
  repeat split; assumption.
Qed.

Lemma BatchTrace_singles data i t r :
  BatchTrace data i t r -> 0 <= i ->
  len (filter (fun c => match c with SingleCall _ _ => true | _ => false end) t)
    <= Z.min batchSize (len data).
Proof.
  induction 1 as [i Hi|i t r Hi Htrace IH|i e cs Hi Hsingle]; intros H0.
  - cbn. pose proof (len_nonneg data). unfold len, batchSize in *. simpl. lia.
  - cbn [filter]. apply IH. unfold batchSize. lia.
  - cbn [filter].
    pose proof (len_chunkAt data i H0 Hi) as Hlen.
    pose proof (singleCallsFor_length _ _ Hsingle) as Hcs.
    assert (Hle : len (filter (fun c => match c with SingleCall _ _ => true | _ => false end) cs)
                  <= len cs).
    { unfold len. pose proof (filter_length_le
        (fun c => match c with SingleCall _ _ => true | _ => false end) cs). lia. }
    assert (len (chunkAt data i) <= len data).
    { unfold chunkAt, slice, len. rewrite length_firstn, length_skipn. lia. }
    unfold len in *. lia.
Qed.

(** X9. Whatever the store answers, [batchInsertSensorData] makes at most
    1000 individual inserts for a file, however long the file is: the
    fallback runs for one chunk at most. *)
Theorem fallback_runs_once data (st : State DB) cs :
  calls (snd (batchInsertSensorData data st)) = calls st ++ cs ->
  len (filter (fun c => match c with SingleCall _ _ => true | _ => false end) cs)
    <= Z.min batchSize (len data).
Proof.
  intros Hcalls. unfold batchInsertSensorData in *.
  destruct (batchInsertFrom_trace data (List.length data) 0 st) as (t & Ht & Htrace).
  { unfold len. lia. }
  rewrite Ht in Hcalls. apply app_inv_head in Hcalls. subst t.
  apply (BatchTrace_singles _ _ _ _ Htrace). lia.
Qed.

Lemma successes_zero cs :
  successes cs = 0 <-> Forall (fun c => callError c <> None) cs.
Proof.
  induction cs as [|c cs IH].
  - split; [constructor | reflexivity].
  - rewrite successes_cons. unfold successes in *. pose proof (len_nonneg
      (filter (fun c => match callError c with Some _ => false | None => true end) cs)).
    destruct (callError c) eqn:Hc; split.
    + intros H0. constructor; [rewrite Hc; discriminate | apply IH; lia].
    + intros Hall. apply Forall_inv_tail in Hall. apply IH in Hall. lia.
    + intros H0. lia.
    + intros Hall. apply Forall_inv in Hall. contradiction.
Qed.

Lemma lastErrorOf_none cs : forall init,
  lastErrorOf cs init = None <-> init = None /\ Forall (fun c => callError c = None) cs.
Proof.
  induction cs as [|c cs IH]; intros init.
  - cbn. split; [intros ->; split; constructor | tauto].
  - rewrite lastErrorOf_cons, IH. destruct (callError c) eqn:Hc; split.
    + intros [H _]. discriminate H.
    + intros [_ H]. apply Forall_inv in H. congruence.
    + intros [-> H]. split; [reflexivity | constructor; assumption].
    + intros [-> H]. split; [reflexivity | exact (Forall_inv_tail H)].
Qed.

(** X10. [individualInsert] calls [Create] once for every record, and it
    returns an error exactly when there was a record and every call failed:
    one record that goes through makes the fallback a success. *)
Theorem fallback_error_iff data (st : State DB) :
  exists cs,
    calls (snd (individualInsert data st)) = calls st ++ cs
    /\ singleCallsFor data cs
    /\ (fst (individualInsert data st) <> None
        <-> data <> [] /\ Forall (fun c => callError c <> None) cs).
Proof.
  destruct (individualInsert_calls data st) as (cs & Hcs & Hsingle & Hres).
  exists cs. split; [exact Hcs|]. split; [exact Hsingle|].
  rewrite Hres. unfold fallbackOutcome.
  assert (Hempty : data = [] <-> cs = []).
  { pose proof (singleCallsFor_length _ _ Hsingle).
    destruct data, cs; split; intros; try reflexivity; discriminate. }
  destruct (lastErrorOf cs None) as [e|] eqn:Hlast.
  - destruct (Z.eqb_spec (successes cs) 0) as [H0|H0].
    + split; [intros _|discriminate]. split; [|apply successes_zero; exact H0].
      intros Hd. apply Hempty in Hd. subst cs. discriminate Hlast.
    + split; [intros H; contradiction|]. intros [_ Hall].
      apply successes_zero in Hall. contradiction.
  - split; [intros H; contradiction|]. intros [Hd Hall].
    apply lastErrorOf_none in Hlast. destruct Hlast as [_ Hok].
    exfalso. destruct cs as [|c cs]; [apply Hd, Hempty; reflexivity|].
    apply Forall_inv in Hall. apply Forall_inv in Hok. contradiction.
Qed.

Lemma processFilesParallel_results env files (st : State DB) :
  map ResultPath (fst (processFilesParallel env files st)) = map FilePath files
  /\ map Duration (fst (processFilesParallel env files st))
     = map (fun job => since env (FilePath job)) files.
Proof.
  revert st. induction files as [|job rest IH]; intros st; [split; reflexivity|].
  cbn [processFilesParallel]. unfold bind at 1 3, ret.
  assert (Hone : ResultPath (fst (processCSVFile env job st)) = FilePath job
                 /\ Duration (fst (processCSVFile env job st)) = since env (FilePath job)).
  { unfold processCSVFile, bind, logf, logAll, ret.
    destruct (readCSV env (FilePath job)) as [err|err|records]; cbn [fst]; try (split; reflexivity).
    destruct (len records =? 0); [split; reflexivity|].
    destruct (parseCSVRecords records (FileName job)) as [[sensorData errorCount] warnings].
    match goal with
    | |- context [(if ?b then batchInsertSensorData sensorData else _) ?s] =>
        destruct ((if b then batchInsertSensorData sensorData else fun st0 => (None, st0)) s)
          as [[e|] st1]
    end; split; reflexivity. }
  destruct (processCSVFile env job st) as [result st1]. cbn [fst] in Hone.
  specialize (IH st1). unfold bind.
  destruct (processFilesParallel env rest st1) as [results st2]. cbn [fst map] in *.
  destruct Hone as [-> ->]. destruct IH as [-> ->]. split; reflexivity.
Qed.


End PersistenceMore.

Lemma counts_are_parse_counts_witness :
  RecordCount (fst (processCSVFile (oneFileEnv goodRows) (mkFileJob "dir/a.CSV" "a.CSV")
                      emptyStore)) = 2.
Proof.
  destruct (counts_are_parse_counts (oneFileEnv goodRows) (mkFileJob "dir/a.CSV" "a.CSV")
              emptyStore goodRows) as (Hcount & _).
  - vm_compute. reflexivity.
  - discriminate.
  - rewrite Hcount. vm_compute. reflexivity.
Defined.

Lemma file_without_readings_witness :
  calls (snd (processCSVFile (oneFileEnv badRows) (mkFileJob "dir/a.CSV" "a.CSV")
                emptyStore)) = [].
Proof.
  destruct (file_without_readings (oneFileEnv badRows) (mkFileJob "dir/a.CSV" "a.CSV")
              emptyStore) as (_ & Hcalls & _).
  - intros records Hread. vm_compute in Hread. injection Hread as <-.
    vm_compute. reflexivity.
  - exact Hcalls.
Defined.


Lemma batches_cover_data_witness :
  concat (map callRecords [BatchCall [readingAt 0; readingAt 1] None])
  = [readingAt 0; readingAt 1].
Proof.
  destruct (batches_cover_data [readingAt 0; readingAt 1] emptyStore
              [BatchCall [readingAt 0; readingAt 1] None]) as (Hcat & _).
  - vm_compute. reflexivity.
  - repeat constructor.
  - exact Hcat.
Defined.

Lemma fallback_runs_once_witness :
  len (filter (fun c => match c with SingleCall _ _ => true | _ => false end)
         [BatchCall [readingAt 0] (Some DuplicateKey);
          SingleCall (readingAt 0) (Some DuplicateKey)])
  <= Z.min batchSize (len [readingAt 0]).
Proof.
  apply (fallback_runs_once [readingAt 0] (mkState [readingAt 0] [] [])).
  vm_compute. reflexivity.
Defined.

(** * New readings on the store with the unique index *)

Section FreshData.

Lemma insertAll_Some batch : forall rows rows',
  Store.insertAll rows batch = Some rows' -> rows' = rows ++ batch.
Proof.
  induction batch as [|record rest IH]; intros rows rows' H.
  - cbn in H. injection H as <-. rewrite app_nil_r. reflexivity.
  - cbn [Store.insertAll] in H. destruct (Store.conflicts rows record); [discriminate|].
    rewrite (IH _ _ H), <- app_assoc. reflexivity.
Qed.

Lemma insertAll_app a : forall rows b,
  Store.insertAll rows (a ++ b)
  = match Store.insertAll rows a with
    | Some rows' => Store.insertAll rows' b
    | None => None
    end.
Proof.
  induction a as [|record rest IH]; intros rows b; [reflexivity|].
  cbn [app Store.insertAll]. destruct (Store.conflicts rows record); [reflexivity|].
  apply IH.
Qed.

Lemma batchInsertFrom_fresh data : forall fuel i (st : State Store.T),
  0 <= i -> len data - i <= Z.of_nat fuel ->
  Store.insertAll (db st) (skipn (Z.to_nat i) data) <> None ->
  exists cs,
    batchInsertFrom fuel data i st
    = (None, mkState (db st ++ skipn (Z.to_nat i) data) (calls st ++ cs) (logged st))
    /\ Forall (fun c => callError c = None) cs.
Proof.
  induction fuel as [|fuel IH]; intros i st H0 Hfuel Hfresh.
  - exists []. cbn. rewrite skipn_all2 by (unfold len in *; lia).
    rewrite !app_nil_r. destruct st; split; [reflexivity | constructor].
  - cbn [batchInsertFrom]. destruct (Z.ltb_spec i (len data)) as [Hi|Hi].
    + rewrite chunkAt_slice. unfold bind at 1. unfold dbCreateInBatches at 1.
      cbn [CreateInBatches Store.persistence]. unfold Store.insertBatch.
      rewrite <- (skipn_chunk data i H0), insertAll_app in Hfresh.
      destruct (Store.insertAll (db st) (chunkAt data i)) as [rows'|] eqn:Hchunk;
        [|contradiction].
      apply insertAll_Some in Hchunk. subst rows'.
      match goal with
      | |- context [batchInsertFrom fuel data ?j ?s] =>
          destruct (IH j s) as (cs & Hrun & Hok)
      end.
      * unfold batchSize. lia.
      * unfold batchSize. lia.
      * exact Hfresh.
      * exists (BatchCall (chunkAt data i) None :: cs). rewrite Hrun. cbn [db calls logged].
        rewrite <- !app_assoc, skipn_chunk by assumption. cbn [app].
        split; [reflexivity|]. constructor; [reflexivity | exact Hok].
    + exists []. unfold ret. rewrite skipn_all2 by (unfold len in *; lia).
      rewrite !app_nil_r. destruct st; split; [reflexivity | constructor].
Qed.

(** X12. When the readings of a file could be inserted in one
    transaction (no key conflict with the store or among themselves), the
    chunked insertion stores all of them after the rows already there, in
    the order of the file, without any failed call, and returns no
    error. *)
Theorem fresh_data_is_stored data (st : State Store.T) :
  Store.insertAll (db st) data <> None ->
  fst (batchInsertSensorData data st) = None
  /\ db (snd (batchInsertSensorData data st)) = db st ++ data
  /\ logged (snd (batchInsertSensorData data st)) = logged st
  /\ exists cs, calls (snd (batchInsertSensorData data st)) = calls st ++ cs
                /\ Forall (fun c => callError c = None) cs.
Proof.
  intros Hfresh. unfold batchInsertSensorData.
  destruct (batchInsertFrom_fresh data (List.length data) 0 st) as (cs & Hrun & Hok).
  - lia.
  - unfold len. lia.
  - exact Hfresh.
  - rewrite Hrun. cbn [fst snd db calls logged Z.to_nat skipn].
    repeat split. exists cs. split; [reflexivity | exact Hok].
Qed.

End FreshData.

Lemma fresh_data_is_stored_witness :
  db (snd (batchInsertSensorData [readingAt 1; readingAt 2] (mkState [readingAt 0] [] [])))
  = [readingAt 0] ++ [readingAt 1; readingAt 2].
Proof.
  destruct (fresh_data_is_stored [readingAt 1; readingAt 2] (mkState [readingAt 0] [] []))
    as (_ & Hdb & _).
  - vm_compute. discriminate.
  - exact Hdb.
Defined.

(** * More on the summary, the scan and the logger *)

Section ScanMore.

Context {DB : Type} {persistence : Persistence DB}.

Lemma summaryLoop_lines results : forall s lines,
  List.length (snd (fold_left summaryStep results (s, lines)))
  = (List.length lines + List.length results)%nat.
Proof.
  induction results as [|r rs IH]; intros s lines; [cbn; lia|].
  cbn [fold_left]. unfold summaryStep at 2. rewrite IH, length_app. cbn. lia.
Qed.

(** X13. In the totals of [displaySummary] the successful and the failed
    files add up to the total number of files; the report has one line per
    result followed by the totals. *)
Theorem summary_counts_add_up results :
  successfulFiles (summaryTotals results) + failedFiles (summaryTotals results)
    = totalFiles (summaryTotals results)
  /\ totalFiles (summaryTotals results) = len results
  /\ 0 <= successfulFiles (summaryTotals results)
  /\ 0 <= failedFiles (summaryTotals results)
  /\ List.length (displaySummary results) = S (List.length results)
  /\ last (displaySummary results) LogNoCSVFiles = LogTotals (summaryTotals results).
Proof.
  rewrite summaryTotals_summaryOf. unfold summaryOf.
  cbn [successfulFiles failedFiles totalFiles].
  assert (Hsplit : len (filter succeeded results) + len (filter failed results) = len results).
  { induction results as [|r rs IH]; [reflexivity|].
    cbn [filter]. change (succeeded r) with (negb (failed r)).
    destruct (failed r); cbn [negb]; rewrite !len_cons; lia. }
  split; [exact Hsplit|]. split; [reflexivity|].
  split; [apply len_nonneg|]. split; [apply len_nonneg|].
  unfold displaySummary. split.
  - rewrite length_app. unfold summaryLoop. rewrite summaryLoop_lines. cbn. lia.
  - rewrite last_last, summaryTotals_summaryOf. reflexivity.
Qed.

Lemma ScanDirectory_outcome env workerCount directoryPath (st : State DB) :
  fst (ScanDirectory env workerCount directoryPath st)
  = (if IsNotExist (os_Stat env directoryPath) then Some (ErrDirNotExist directoryPath)
     else match os_ReadDir env directoryPath with
          | inl err => Some (ErrFindCSV err)
          | inr _ => None
          end)
  /\ (fst (ScanDirectory env workerCount directoryPath st) <> None ->
      snd (ScanDirectory env workerCount directoryPath st)
      = mkState (db st) (calls st) (logged st ++ [LogScanning directoryPath])).
Proof.
  unfold ScanDirectory, findCSVFiles, bind, logf, logAll, ret.
  destruct (IsNotExist (os_Stat env directoryPath)); cbn [fst snd db calls logged].
  - split; [reflexivity | intros _; reflexivity].
  - destruct (os_ReadDir env directoryPath) as [err|entries]; cbn [fst snd db calls logged].
    + split; [reflexivity | intros _; reflexivity].
    + destruct (len (collectCSV directoryPath entries []) =? 0); cbn [fst snd].
      * split; [reflexivity | intros H; contradiction].
      * destruct (processFilesParallel env (collectCSV directoryPath entries []) _)
          as [results st1].
        cbn [fst snd]. split; [reflexivity | intros H; contradiction].
Qed.

(** X14. [ScanDirectory] returns an error only for the directory itself:
    the not-found error when [os.Stat] reports that it does not exist,
    else the listing error when [os.ReadDir] fails, and no error in every
    other case, whatever happens to the files.  When it returns an error,
    the store is not called and only the first log line is written. *)
Theorem scan_fails_only_on_directory env workerCount directoryPath (st : State DB) :
  fst (ScanDirectory env workerCount directoryPath st)
  = (if IsNotExist (os_Stat env directoryPath) then Some (ErrDirNotExist directoryPath)
     else match os_ReadDir env directoryPath with
          | inl err => Some (ErrFindCSV err)
          | inr _ => None
          end)
  /\ (fst (ScanDirectory env workerCount directoryPath st) <> None ->
      snd (ScanDirectory env workerCount directoryPath st)
      = mkState (db st) (calls st) (logged st ++ [LogScanning directoryPath])).
Proof. apply ScanDirectory_outcome. Qed.


End ScanMore.

Lemma scan_fails_only_on_directory_witness :
  snd (ScanDirectory (oneFileEnv goodRows) 1 "elsewhere" emptyStore)
  = mkState [] [] ([] ++ [LogScanning "elsewhere"]).
Proof.
  destruct (scan_fails_only_on_directory (oneFileEnv goodRows) 1 "elsewhere" emptyStore)
    as (_ & H).
  apply H. vm_compute. discriminate.
Defined.


Section WorkerCountAndLogger.

Lemma SetWorkerCount_positive cs count :
  1 <= workerCount cs -> 1 <= workerCount (SetWorkerCount cs count).
Proof.
  intros H. unfold SetWorkerCount. destruct (Z.ltb_spec 0 count); cbn; lia.
Qed.

(** X15. A new scanner has [min(NumCPU, 8)] workers; [SetWorkerCount]
    takes a positive count as it is (the cap of 8 does not apply to it) and
    ignores any other, so after any sequence of calls the scanner still has
    at least one worker. *)
Theorem worker_count_stays_positive numCPU counts :
  1 <= numCPU ->
  workerCount (NewCSVScanner numCPU) = Z.min numCPU 8
  /\ 1 <= workerCount (fold_left SetWorkerCount counts (NewCSVScanner numCPU))
  /\ (forall cs count, 0 < count -> workerCount (SetWorkerCount cs count) = count)
  /\ (forall cs count, count <= 0 -> SetWorkerCount cs count = cs).
Proof.
  intros Hcpu.
  assert (Hnew : workerCount (NewCSVScanner numCPU) = Z.min numCPU 8).
  { unfold NewCSVScanner. destruct (Z.ltb_spec 8 numCPU); cbn; lia. }
  split; [exact Hnew|]. split; [|split].
  - assert (Hpos : 1 <= workerCount (NewCSVScanner numCPU)) by lia.
    revert Hpos. generalize (NewCSVScanner numCPU).
    induction counts as [|c counts IH]; intros cs Hpos; [exact Hpos|].
    cbn [fold_left]. apply IH. apply SetWorkerCount_positive. exact Hpos.
  - intros cs count H. unfold SetWorkerCount.
    replace (0 <? count) with true by (symmetry; apply Z.ltb_lt; lia). reflexivity.
  - intros cs count H. unfold SetWorkerCount.
    replace (0 <? count) with false by (symmetry; apply Z.ltb_ge; lia). reflexivity.
Qed.

Lemma worker_count_stays_positive_witness :
  1 <= workerCount (fold_left SetWorkerCount [0; 12; -3] (NewCSVScanner 16)).
Proof.
  destruct (worker_count_stays_positive 16 [0; 12; -3]) as (_ & Hpos & _); [lia|].
  exact Hpos.
Defined.

Lemma levels_known l r :
  logger.levels l = Some r ->
  (r = 0 /\ l = logger.DEBUG) \/ (r = 1 /\ l = logger.INFO)
  \/ (r = 2 /\ l = logger.WARN) \/ (r = 3 /\ l = logger.ERROR).
Proof.
  unfold logger.levels.
  destruct (String.eqb_spec l logger.DEBUG); [intros [= <-]; auto|].
  destruct (String.eqb_spec l logger.INFO); [intros [= <-]; auto|].
  destruct (String.eqb_spec l logger.WARN); [intros [= <-]; auto 6|].
  destruct (String.eqb_spec l logger.ERROR); [intros [= <-]; auto 6 | discriminate].
Qed.

(** Below "warn", the lines of [Printf] and of [Warnf] both pass. *)
Lemma shouldLog_below_warn logLevel m :
  logLevel <> logger.WARN -> logLevel <> logger.ERROR ->
  m = logger.WARN \/ m = logger.INFO ->
  logger.shouldLog logLevel m = true.
Proof.
  intros Hw He Hm. unfold logger.shouldLog.
  destruct (logger.levels logLevel) as [l|] eqn:Hl.
  - destruct (levels_known _ _ Hl) as [[-> _]|[[-> _]|[[_ ->]|[_ ->]]]];
      try contradiction; destruct Hm as [-> | ->]; reflexivity.
  - destruct Hm as [-> | ->]; reflexivity.
Qed.

(** X16. [shouldLog] is a threshold on the rank of the levels: a message
    of a known level passes exactly when its rank is at least the rank of
    the configured level, a configured level that is unknown counts as
    "info", and a message of an unknown level always passes.  So error
    messages pass at every level, warnings are dropped only at "error", and
    info messages are dropped exactly at "warn" and "error". *)
Theorem shouldLog_threshold logLevel messageLevel :
  (forall m, logger.levels messageLevel = Some m ->
     logger.shouldLog logLevel messageLevel
     = (match logger.levels logLevel with Some l => l | None => 1 end <=? m))
  /\ (logger.levels logLevel = None ->
      logger.shouldLog logLevel messageLevel = logger.shouldLog logger.INFO messageLevel)
  /\ (logger.levels messageLevel = None -> logger.shouldLog logLevel messageLevel = true)
  /\ logger.shouldLog logLevel logger.ERROR = true
  /\ (logger.shouldLog logLevel logger.WARN = false <-> logLevel = logger.ERROR)
  /\ (logger.shouldLog logLevel logger.INFO = false
      <-> logLevel = logger.WARN \/ logLevel = logger.ERROR).
Proof.
  split; [|split; [|split; [|split; [|split]]]].
  - intros m Hm. unfold logger.shouldLog. rewrite Hm. reflexivity.
  - intros Hl. unfold logger.shouldLog. rewrite Hl. reflexivity.
  - intros Hm. unfold logger.shouldLog. rewrite Hm. reflexivity.
  - unfold logger.shouldLog. change (logger.levels logger.ERROR) with (Some 3).
    destruct (logger.levels logLevel) as [l|] eqn:Hl; [|reflexivity].
    apply Z.leb_le. destruct (levels_known _ _ Hl) as [[-> _]|[[-> _]|[[-> _]|[-> _]]]]; lia.
  - unfold logger.shouldLog. change (logger.levels logger.WARN) with (Some 2).
    destruct (logger.levels logLevel) as [l|] eqn:Hl.
    + destruct (levels_known _ _ Hl) as [[-> ->]|[[-> ->]|[[-> ->]|[-> ->]]]];
        split; intros H; try reflexivity; discriminate H.
    + split; [discriminate|]. intros ->. discriminate Hl.
  - unfold logger.shouldLog. change (logger.levels logger.INFO) with (Some 1).
    destruct (logger.levels logLevel) as [l|] eqn:Hl.
    + destruct (levels_known _ _ Hl) as [[-> ->]|[[-> ->]|[[-> ->]|[-> ->]]]];
        split; intros H; auto; try discriminate H; destruct H as [H|H]; discriminate H.
    + split; [discriminate|]. intros [-> | ->]; discriminate Hl.
Qed.

Lemma shouldLog_threshold_witness :
  logger.shouldLog "verbose" "warn" = logger.shouldLog logger.INFO "warn".
Proof.
  destruct (shouldLog_threshold "verbose" "warn") as (_ & Hunknown & _).
  apply Hunknown. reflexivity.
Defined.

(** X17. What the scanner writes depends on the log level: at "error"
    nothing at all, at "warn" the warnings only, and at "debug", "info" or
    an unknown level every line.  In particular the summary, with its lines
    for the failed files, is written only below "warn". *)
Theorem written_by_level entries results logLevel :
  written logger.ERROR entries = []
  /\ written logger.WARN entries
     = filter (fun e => String.eqb (entryLevel e) logger.WARN) entries
  /\ written logger.WARN (displaySummary results) = []
  /\ (logLevel <> logger.WARN -> logLevel <> logger.ERROR ->
      written logLevel entries = entries).
Proof.
  assert (Hlevel : forall e, entryLevel e = logger.WARN \/ entryLevel e = logger.INFO).
  { intros e. destruct e; cbn; auto. }
  split; [|split; [|split]].
  - unfold written. induction entries as [|e es IH]; [reflexivity|].
    cbn [filter]. destruct (Hlevel e) as [-> | ->]; exact IH.
  - unfold written. apply filter_ext. intros e.
    destruct (Hlevel e) as [-> | ->]; reflexivity.
  - assert (Hinfo : forall es, Forall (fun e => entryLevel e = logger.INFO) es ->
                               written logger.WARN es = []).
    { induction 1 as [|e es He _ IH]; [reflexivity|].
      unfold written in *. cbn [filter]. rewrite He. exact IH. }
    apply Hinfo. unfold displaySummary. apply Forall_app. split; [|repeat constructor].
    unfold summaryLoop. generalize (mkSummary (len results) 0 0 0 0 0).
    assert (Hgen : forall rs s lines,
              Forall (fun e => entryLevel e = logger.INFO) lines ->
              Forall (fun e => entryLevel e = logger.INFO)
                     (snd (fold_left summaryStep rs (s, lines)))).
    { induction rs as [|r rs IH]; intros s lines Hl; [exact Hl|].
      cbn [fold_left]. unfold summaryStep at 2. apply IH.
      apply Forall_app. split; [exact Hl|]. constructor; [|constructor].
      destruct (ResultError r); reflexivity. }
    intros s. apply Hgen. constructor.
  - intros Hw He. unfold written.
    induction entries as [|e es IH]; [reflexivity|].
    cbn [filter]. rewrite (shouldLog_below_warn logLevel _ Hw He (Hlevel e)), IH. reflexivity.
Qed.

Lemma written_by_level_witness :
  written "debug" [LogProcessing "a.csv"; WarnEmptySensorName 2 "a.csv"]
  = [LogProcessing "a.csv"; WarnEmptySensorName 2 "a.csv"].
Proof.
  destruct (written_by_level [LogProcessing "a.csv"; WarnEmptySensorName 2 "a.csv"] []
              "debug") as (_ & _ & _ & Hall).
  apply Hall; discriminate.
Defined.

End WorkerCountAndLogger.

(** * The whole scan, short files on the store, and file names *)

Section ScanReport.

Context {DB : Type} {persistence : Persistence DB}.

(** X19. When the directory is listed and has CSV files, the scan
    processes one job per CSV entry of the listing, in order, and the last
    line it logs is the totals over the results of these jobs, with the
    number of CSV entries as the total number of files. *)
Theorem scan_reports_every_csv_file env workerCount directoryPath (st : State DB) entries :
  IsNotExist (os_Stat env directoryPath) = false ->
  os_ReadDir env directoryPath = inr entries ->
  filter isCSVEntry entries <> [] ->
  exists results,
    map ResultPath results
      = map (fun e => filepath.Join directoryPath (Name e)) (filter isCSVEntry entries)
    /\ last (logged (snd (ScanDirectory env workerCount directoryPath st))) LogNoCSVFiles
       = LogTotals (summaryTotals results)
    /\ totalFiles (summaryTotals results) = len (filter isCSVEntry entries)
    /\ fst (ScanDirectory env workerCount directoryPath st) = None.
Proof.
  intros Hstat Hlist Hne.
  unfold ScanDirectory, findCSVFiles, bind, logf, logAll, ret.
  rewrite Hstat, Hlist, collectCSV_filter. cbn [app].
  set (jobs := map (jobFor directoryPath) (filter isCSVEntry entries)).
  assert (Hjobs : (len jobs =? 0) = false).
  { apply Z.eqb_neq. unfold jobs, len. rewrite length_map.
    destruct (filter isCSVEntry entries); [contradiction | simpl; lia]. }
  rewrite Hjobs.
  match goal with
  | |- context [processFilesParallel env jobs ?s] =>
      pose proof (processFilesParallel_results env jobs s) as [Hpaths _];
      destruct (processFilesParallel env jobs s) as [results st1]
  end.
  cbn [fst snd logged] in *. exists results.
  split; [|split; [|split; [|reflexivity]]].
  - rewrite Hpaths. unfold jobs. rewrite map_map. reflexivity.
  - unfold displaySummary. rewrite app_assoc. apply last_last.
  - rewrite summaryTotals_summaryOf. cbn [summaryOf totalFiles].
    unfold len. rewrite <- (length_map ResultPath results), Hpaths.
    unfold jobs. rewrite !length_map. reflexivity.
Qed.

End ScanReport.

Lemma scan_reports_every_csv_file_witness :
  exists results,
    map ResultPath results
      = map (fun e => filepath.Join "dir" (Name e))
            (filter isCSVEntry [mkEntry "a.CSV" false; mkEntry "nested.csv" true;
                                mkEntry "readme.txt" false])
    /\ last (logged (snd (ScanDirectory (oneFileEnv goodRows) 2 "dir" emptyStore)))
            LogNoCSVFiles
       = LogTotals (summaryTotals results)
    /\ totalFiles (summaryTotals results)
       = len (filter isCSVEntry [mkEntry "a.CSV" false; mkEntry "nested.csv" true;
                                 mkEntry "readme.txt" false])
    /\ fst (ScanDirectory (oneFileEnv goodRows) 2 "dir" emptyStore) = None.
Proof.
  apply (scan_reports_every_csv_file (oneFileEnv goodRows) 2 "dir" emptyStore).
  - reflexivity.
  - vm_compute. reflexivity.
  - vm_compute. discriminate.
Defined.

Section ShortFiles.

Lemma conflicts_app rows extra d :
  Store.conflicts rows d = true -> Store.conflicts (rows ++ extra) d = true.
Proof.
  unfold Store.conflicts. rewrite existsb_app. intros ->. reflexivity.
Qed.

Lemma individualInsertLoop_store data : forall lastError successCount (st : State Store.T),
  (forall x, Store.conflicts (db st) x = true ->
             Store.conflicts (db (snd (individualInsertLoop data lastError successCount st))) x
             = true)
  /\ (forall d, In d data ->
             Store.conflicts (db (snd (individualInsertLoop data lastError successCount st))) d
             = true).
Proof.
  induction data as [|record rest IH]; intros lastError successCount st.
  - split; [trivial | intros d []].
  - cbn [individualInsertLoop]. unfold bind, dbCreate, logf.
    cbn [Create Store.persistence]. unfold Store.insert.
    destruct (Store.conflicts (db st) record) eqn:Hc.
    + cbn [db calls logged].
      match goal with
      | |- context [individualInsertLoop rest ?le ?sc ?s] =>
          destruct (IH le sc s) as [Hmono Hin]
      end.
      cbn [db calls logged] in Hmono, Hin. split; [exact Hmono|].
      intros d [<-|Hd]; [apply Hmono; exact Hc | apply Hin; exact Hd].
    + cbn [db calls logged].
      match goal with
      | |- context [individualInsertLoop rest ?le ?sc ?s] =>
          destruct (IH le sc s) as [Hmono Hin]
      end.
      cbn [db calls logged] in Hmono, Hin. split.
      * intros x Hx. apply Hmono. apply conflicts_app. exact Hx.
      * intros d [<-|Hd]; [|apply Hin; exact Hd].
        apply Hmono. apply conflicts_In. apply in_or_app. right. left. reflexivity.
Qed.

Lemma individualInsert_db data (st : State Store.T) :
  db (snd (individualInsert data st)) = db (snd (individualInsertLoop data None 0 st)).
Proof.
  unfold individualInsert, bind.
  destruct (individualInsertLoop data None 0 st) as [[lastError successCount] st1].
  destruct lastError; [|reflexivity].
  destruct (successCount =? 0); reflexivity.
Qed.

Lemma batchInsertFrom_done fuel data i (st : State Store.T) :
  len data <= i -> batchInsertFrom fuel data i st = (None, st).
Proof.
  intros Hi. destruct fuel; [reflexivity|]. cbn [batchInsertFrom].
  replace (i <? len data) with false by (symmetry; apply Z.ltb_ge; lia). reflexivity.
Qed.

Lemma chunkAt_short (data : list SensorData) :
  len data <= batchSize -> chunkAt data 0 = data.
Proof.
  intros H. unfold chunkAt, slice. cbn [Z.to_nat skipn].
  rewrite Z.min_l by lia. apply firstn_all2. unfold len. lia.
Qed.

(** X20. For a file of at most 1000 readings, on the store with the
    unique index, every reading has its key in the store after
    [batchInsertSensorData], whether the batch went through or the fallback
    ran and skipped the duplicates; and every key that was in the store is
    still there. *)
Theorem short_file_ends_up_stored data (st : State Store.T) :
  len data <= batchSize ->
  (forall d, In d data ->
     Store.conflicts (db (snd (batchInsertSensorData data st))) d = true)
  /\ (forall x, Store.conflicts (db st) x = true ->
     Store.conflicts (db (snd (batchInsertSensorData data st))) x = true).
Proof.
  intros Hshort. unfold batchInsertSensorData.
  destruct data as [|d0 data]; [split; [intros d [] | trivial]|].
  cbn [List.length batchInsertFrom].
  replace (0 <? len (d0 :: data)) with true
    by (symmetry; apply Z.ltb_lt; rewrite len_cons; pose proof (len_nonneg data); lia).
  rewrite chunkAt_slice, chunkAt_short by assumption.
  unfold bind. unfold dbCreateInBatches.
  cbn [CreateInBatches Store.persistence]. unfold Store.insertBatch.
  destruct (Store.insertAll (db st) (d0 :: data)) as [rows'|] eqn:Hall.
  - apply insertAll_Some in Hall. subst rows'.
    rewrite batchInsertFrom_done by (cbn [Z.add]; exact Hshort).
    cbn [snd db]. split.
    + intros d Hd. apply conflicts_In. apply in_or_app. right. exact Hd.
    + intros x Hx. apply conflicts_app. exact Hx.
  - rewrite individualInsert_db.
    match goal with
    | |- context [individualInsertLoop _ None 0 ?s] =>
        destruct (individualInsertLoop_store (d0 :: data) None 0 s) as [Hmono Hin]
    end.
    cbn [db] in Hmono. split; [exact Hin | exact Hmono].
Qed.

End ShortFiles.

Lemma short_file_ends_up_stored_witness :
  Store.conflicts
    (db (snd (batchInsertSensorData [readingAt 0; readingAt 1] (mkState [readingAt 0] [] []))))
    (readingAt 1) = true.
Proof.
  destruct (short_file_ends_up_stored [readingAt 0; readingAt 1] (mkState [readingAt 0] [] []))
    as (Hin & _).
  - vm_compute. discriminate.
  - apply Hin. right. left. reflexivity.
Defined.

Section FileNames.

Lemma rev_string_app s : forall acc t,
  rev_string acc (s ++ t)%string = rev_string (rev_string acc s) t.
Proof.
  induction s as [|c s IH]; intros acc t; [reflexivity|].
  cbn [String.append rev_string]. apply IH.
Qed.

Lemma lower_byte_plain c x :
  strings.lower_byte c = x ->
  (x = "c" \/ x = "s" \/ x = "v")%char ->
  filepath.IsPathSeparator c = false /\ Ascii.eqb c "." = false.
Proof.
  intros Hl Hx. subst x.
  destruct c as [[] [] [] [] [] [] [] []]; vm_compute in Hx |- *;
    try (split; reflexivity);
    destruct Hx as [H|[H|H]]; discriminate H.
Qed.

(** X21. Every listed entry that is not a directory and whose name ends
    in ".csv", in any mix of upper and lower case, becomes a job, whatever
    comes before the extension. *)
Theorem csv_names_become_jobs env directoryPath entries stem ext :
  strings.ToLower ext = ".csv" ->
  os_ReadDir env directoryPath = inr entries ->
  In (mkEntry (stem ++ ext)%string false) entries ->
  exists jobs,
    findCSVFiles env directoryPath = inr jobs
    /\ In (mkFileJob (filepath.Join directoryPath (stem ++ ext)%string)
                     (stem ++ ext)%string) jobs.
Proof.
  intros Hext Hlist Hin.
  assert (Hcsv : isCSVEntry (mkEntry (stem ++ ext)%string false) = true).
  { unfold isCSVEntry. cbn [IsDir Name negb andb]. apply String.eqb_eq.
    destruct ext as [|e0 [|e1 [|e2 [|e3 [|e4 ext]]]]]; try discriminate Hext.
    cbn [strings.ToLower] in Hext. injection Hext as H0 H1 H2 H3.
    assert (He0 : e0 = "."%char).
    { destruct e0 as [[] [] [] [] [] [] [] []]; vm_compute in H0; try discriminate H0;
        reflexivity. }
    subst e0.
    destruct (lower_byte_plain e1 _ H1 ltac:(auto)) as [S1 D1].
    destruct (lower_byte_plain e2 _ H2 ltac:(auto)) as [S2 D2].
    destruct (lower_byte_plain e3 _ H3 ltac:(auto)) as [S3 D3].
    unfold filepath.Ext. rewrite rev_string_app. cbn [rev_string filepath.ext_rev].
    rewrite S3, D3, S2, D2, S1, D1. cbn.
    rewrite H1, H2, H3. reflexivity. }
  exists (map (jobFor directoryPath) (filter isCSVEntry entries)). split.
  - unfold findCSVFiles. rewrite Hlist, collectCSV_filter. reflexivity.
  - apply in_map_iff. exists (mkEntry (stem ++ ext)%string false). split; [reflexivity|].
    apply filter_In. split; assumption.
Qed.

End FileNames.

Lemma csv_names_become_jobs_witness :
  exists jobs,
    findCSVFiles (oneFileEnv goodRows) "dir" = inr jobs
    /\ In (mkFileJob (filepath.Join "dir" ("a" ++ ".CSV")%string) ("a" ++ ".CSV")%string) jobs.
Proof.
  apply (csv_names_become_jobs (oneFileEnv goodRows) "dir"
           [mkEntry "a.CSV" false; mkEntry "nested.csv" true; mkEntry "readme.txt" false]
           "a" ".CSV").
  - reflexivity.
  - vm_compute. reflexivity.
  - left. reflexivity.
Defined.
